(** * Audio streaming front end: codec, container, scheduler and session control

    A shallow embedding of the audio plumbing of the browser front end:
    - [src/components/Conversation.tsx]   (two-way live voice conversation),
    - [src/components/ImageEditor.tsx]    (its [AudioTranscriber] part),
    - [src/components/TTS.tsx]            ([createWavUrl] and the speech handlers),
    - [src/services/geminiService.ts]     (the one-shot generation calls),
    and of the click handlers of the pages that make those calls (the files
    above, [ImageUpscaler.tsx], [ImageSizer.tsx], [PromptExtractor.tsx] and
    the face swap page in [icons/GarmentUploadIcon.tsx]).

    Conventions.
    - A JavaScript [number] holding a sample or a time is a rational [Q]: every
      arithmetic step taken on samples by the code below (multiplying or
      dividing by 32768, truncating) is exact in IEEE arithmetic, so the
      rational model and the floating-point run agree on them; times on the
      playback clock are taken as exact rationals too.
    - Typed-array elements are [Z] with the wrap-around of the element type
      written out; a byte buffer is a [list Z] of values in [0, 256).
    - Text received from the service is a sequence of UTF-16 code units.
    - The base64 text framing ([btoa]/[atob]) is the browser's; payloads are
      modelled as the byte sequences that are framed, and where a handler
      decodes a text that the service sent, [atob] is a parameter.
    - A handler is a closure of the render that made it: a guard on a state
      variable reads the value that the variable had in that render
      ([handleStartOf], [handleStopOf]).  The buttons call the closures of the
      latest render ([handleStart], [handleStop]), and so do the events of a
      run. *)

From Stdlib Require Import ZArith QArith Qabs Qround List Bool String Ascii Lia Arith.
Import ListNotations.

Local Open Scope Z_scope.

(** ** JavaScript primitives used by the code *)

Module JS.

(** Truncation of a number toward zero (the integer part taken by every
    typed-array integer conversion). *)
Definition trunc (x : Q) : Z := Z.quot (Qnum x) (Zpos (Qden x)).

(** [ToInt16]: the conversion applied when a number is stored into an
    [Int16Array]: truncate, reduce modulo 2^16, read as two's complement. *)
Definition ToInt16 (x : Q) : Z :=
  let n := trunc x mod 65536 in
  if 32768 <=? n then n - 65536 else n.

(** [ToUint32], [ToUint16], [ToUint8] on an integral number. *)
Definition ToUint32 (v : Z) : Z := v mod 4294967296.
Definition ToUint16 (v : Z) : Z := v mod 65536.
Definition ToUint8 (v : Z) : Z := v mod 256.

(** The double nearest to a positive rational, ties to even; 0 for what is
    not positive.  The exponent range is left out: the quotients rounded
    below are compared with numbers between 1/2 and 2, and a quotient that
    overflows or underflows compares with them as its exact value does. *)
Definition toDouble (q : Q) : Q :=
  let n := Qnum q in
  let d := Zpos (Qden q) in
  if n <=? 0 then 0%Q else
  let k := Z.log2 n - Z.log2 d in
  let k := if (if 0 <=? k then d * 2 ^ k <=? n else d <=? n * 2 ^ (- k))
           then k else k - 1 in
  let e := k - 52 in
  let num := if 0 <=? e then n else n * 2 ^ (- e) in
  let den := if 0 <=? e then d * 2 ^ e else d in
  let a := num / den in
  let r := num mod den in
  let a := if 2 * r <? den then a
           else if den <? 2 * r then a + 1
           else a + a mod 2 in
  if 0 <=? e then inject_Z (a * 2 ^ e) else Qmake a (Z.to_pos (2 ^ (- e))).

(** [Math.max] on two numbers (neither is NaN here). *)
Definition Math_max (a b : Q) : Q := if Qlt_le_dec a b then b else a.

(** A string is its sequence of UTF-16 code units. *)
Definition JSString := list N.

(** Code units of an ASCII literal. *)
Fixpoint str (s : string) : JSString :=
  match s with
  | EmptyString => []
  | String c r => N_of_ascii c :: str r
  end.

(** WhiteSpace and LineTerminator code points, as [String.prototype.trim]
    strips them. *)
Definition isWhiteSpace (c : N) : bool :=
  (List.existsb (N.eqb c)
     [0x9; 0xA; 0xB; 0xC; 0xD; 0x20; 0xA0; 0x1680; 0x2028; 0x2029;
      0x202F; 0x205F; 0x3000; 0xFEFF]
   || ((0x2000 <=? c) && (c <=? 0x200A)))%N.

Fixpoint trimStart (s : JSString) : JSString :=
  match s with
  | [] => []
  | c :: r => if isWhiteSpace c then trimStart r else s
  end.

Definition trimEnd (s : JSString) : JSString := rev (trimStart (rev s)).

Definition trim (s : JSString) : JSString := trimEnd (trimStart s).

(** Truthiness of a string: non-empty. *)
Definition truthy (s : JSString) : bool :=
  match s with [] => false | _ :: _ => true end.


End JS.

(** ** Audio codec utilities ([Conversation.tsx], lines 27-59) *)

Module AudioCodec.
Import JS.

(** The media blob handed to [sendRealtimeInput]; [data] is the byte
    sequence that [encode] frames as base64 text. *)
Record Blob := mkBlob { data : list Z; mimeType : string }.

(** The two bytes of an [Int16Array] element as [new Uint8Array(int16.buffer)]
    exposes them (little-endian). *)
Definition int16_bytes (v : Z) : list Z :=
  [Z.land v 255; Z.land (Z.shiftr v 8) 255].

(** [createBlob]: [int16[i] = data[i] * 32768] for every sample. *)
Definition createBlob (samples : list Q) : Blob :=
  {| data := flat_map int16_bytes (map (fun x => ToInt16 (x * 32768)) samples);
     mimeType := "audio/pcm;rate=16000" |}.

(** [new Int16Array(data.buffer)]: a view of the bytes as little-endian
    signed 16-bit integers; a [RangeError] ([None]) on an odd length. *)
Fixpoint Int16Array_of_bytes (bytes : list Z) : option (list Z) :=
  match bytes with
  | [] => Some []
  | [_] => None
  | lo :: hi :: rest =>
      match Int16Array_of_bytes rest with
      | Some r =>
          let u := Z.lor lo (Z.shiftl hi 8) in
          Some ((if 32768 <=? u then u - 65536 else u) :: r)
      | None => None
      end
  end.

Record AudioBuffer := mkAudioBuffer {
  numberOfChannels : nat;
  length : nat;              (* frameCount *)
  sampleRate : positive;
  channelData : list (list Q)
}.

(** [AudioBuffer.duration], in seconds. *)
Definition duration (b : AudioBuffer) : Q :=
  Z.of_nat (length b) # sampleRate b.

(** What the [createBuffer] of an audio context accepts, by channel count
    and sample rate.  Every context accepts 1 to 32 channels at 8000 to
    96000 Hz; beyond that, contexts differ. *)
Definition AudioContext := nat -> positive -> bool.

Definition conforming (ctx : AudioContext) : Prop :=
  forall numChannels rate,
    (1 <= numChannels <= 32)%nat -> (8000 <= rate <= 96000)%positive ->
    ctx numChannels rate = true.

(** [decodeAudioData(data, ctx, sampleRate, numChannels)]: the bytes are
    viewed as 16-bit integers ([RangeError] on an odd length),
    [ctx.createBuffer] makes a buffer of the whole frames of the data (a
    [NotSupportedError] for no channel, no frame, or a channel count or rate
    that the context does not support), and element [i] of channel [c] is
    [dataInt16[i * numChannels + c] / 32768.0]. *)
Definition decodeAudioDataOn (ctx : AudioContext) (bytes : list Z) (rate : positive)
    (numChannels : nat) : option AudioBuffer :=
  match Int16Array_of_bytes bytes with
  | None => None
  | Some dataInt16 =>
      let frameCount := (List.length dataInt16 / numChannels)%nat in
      if ((numChannels =? 0) || (frameCount =? 0))%nat || negb (ctx numChannels rate)
      then None
      else
        Some {| numberOfChannels := numChannels;
                length := frameCount;
                sampleRate := rate;
                channelData :=
                  map (fun channel =>
                         map (fun i =>
                                Qdiv (inject_Z (nth (i * numChannels + channel)%nat
                                                    dataInt16 0%Z))
                                     32768)
                             (seq 0 frameCount))
                      (seq 0 numChannels) |}
  end.

(** [decodeAudioData] on a context that supports the format asked for.  The
    code asks for 24000 Hz, mono, which every context supports. *)
Definition decodeAudioData (bytes : list Z) (rate : positive) (numChannels : nat)
  : option AudioBuffer :=
  decodeAudioDataOn (fun _ _ => true) bytes rate numChannels.

End AudioCodec.

(** ** Playable container ([TTS.tsx], [createWavUrl], lines 30-80) *)

Module Wav.
Import JS.

(** Overwrite [bytes] at byte offset [off] of a buffer; a [RangeError]
    ([None]) when the bytes do not fit. *)
Definition writeBytes (buf : list Z) (off : nat) (bytes : list Z) : option (list Z) :=
  if (off + List.length bytes <=? List.length buf)%nat
  then Some (firstn off buf ++ bytes ++ skipn (off + List.length bytes) buf)
  else None.

(** [DataView.setUint8], [setUint16] and [setUint32] with [littleEndian = true]. *)
Definition setUint8 (view : list Z) (off : nat) (v : Z) : option (list Z) :=
  writeBytes view off [ToUint8 v].

Definition setUint16 (view : list Z) (off : nat) (v : Z) : option (list Z) :=
  let u := ToUint16 v in
  writeBytes view off [Z.land u 255; Z.land (Z.shiftr u 8) 255].

Definition setUint32 (view : list Z) (off : nat) (v : Z) : option (list Z) :=
  let u := ToUint32 v in
  writeBytes view off
    [Z.land u 255; Z.land (Z.shiftr u 8) 255;
     Z.land (Z.shiftr u 16) 255; Z.land (Z.shiftr u 24) 255].

(** [DataView.getUint16] and [getUint32] with [littleEndian = true], for
    reading a produced header back. *)
Definition getUint16 (view : list Z) (off : nat) : option Z :=
  match skipn off view with
  | b0 :: b1 :: _ => Some (Z.lor b0 (Z.shiftl b1 8))
  | _ => None
  end.

Definition getUint32 (view : list Z) (off : nat) : option Z :=
  match skipn off view with
  | b0 :: b1 :: b2 :: b3 :: _ =>
      Some (Z.lor (Z.lor b0 (Z.shiftl b1 8))
                  (Z.lor (Z.shiftl b2 16) (Z.shiftl b3 24)))
  | _ => None
  end.

Definition bind {A B} (m : option A) (f : A -> option B) : option B :=
  match m with Some a => f a | None => None end.

Notation "x <- m ;; k" := (bind m (fun x => k))
  (at level 61, m at next level, right associativity).

(** [writeString]: one [setUint8] per character of an ASCII literal. *)
Fixpoint writeString (view : list Z) (offset : nat) (s : string) : option (list Z) :=
  match s with
  | EmptyString => Some view
  | String c r =>
      v <- setUint8 view offset (Z.of_N (N_of_ascii c)) ;;
      writeString v (S offset) r
  end.

Definition sampleRate : Z := 24000.
Definition numChannels : Z := 1.
Definition bitsPerSample : Z := 16.
Definition blockAlign : Z := (numChannels * bitsPerSample) / 8.
Definition byteRate : Z := sampleRate * blockAlign.

(** [createWavUrl]: the bytes of the blob behind the returned object URL,
    from the PCM bytes that [atob] yields. *)
Definition createWavUrl (pcmData : list Z) : option (list Z) :=
  let dataSize := Z.of_nat (List.length pcmData) in
  let buffer := repeat 0 (44 + List.length pcmData) in
  (* RIFF header *)
  v <- writeString buffer 0 "RIFF" ;;
  v <- setUint32 v 4 (36 + dataSize) ;;
  v <- writeString v 8 "WAVE" ;;
  (* fmt chunk *)
  v <- writeString v 12 "fmt " ;;
  v <- setUint32 v 16 16 ;;
  v <- setUint16 v 20 1 ;;
  v <- setUint16 v 22 numChannels ;;
  v <- setUint32 v 24 sampleRate ;;
  v <- setUint32 v 28 byteRate ;;
  v <- setUint16 v 32 blockAlign ;;
  v <- setUint16 v 34 bitsPerSample ;;
  (* data chunk *)
  v <- writeString v 36 "data" ;;
  v <- setUint32 v 40 dataSize ;;
  (* PCM data *)
  writeBytes v 44 pcmData.

End Wav.

(** ** Browser resources and process environment *)

Module Browser.

(** A browser object (media stream, audio node, audio context, live
    session) is known by the number of its allocation. *)
Definition Handle := nat.

(** A call [source.start(startTime)] on a buffer source. *)
Record StartCall := mkStartCall {
  source : Handle;
  startTime : Q;
  buffer : AudioCodec.AudioBuffer
}.

(** What the page holds of the browser, and the calls made on audio
    sources so far. *)
Record World := mkWorld {
  nextHandle : Handle;
  capturing : list Handle;   (* media streams whose tracks are live *)
  taps : list Handle;        (* script processors that are connected *)
  contexts : list Handle;    (* audio contexts that are not closed *)
  sessions : list Handle;    (* live sessions requested and not closed *)
  started : list StartCall;  (* [source.start] calls, in order *)
  stopped : list Handle      (* [source.stop] calls, in order *)
}.

Definition emptyWorld : World := mkWorld 0%nat [] [] [] [] [] [].

Definition delete (h : Handle) (l : list Handle) : list Handle :=
  filter (fun x => negb (Nat.eqb x h)) l.

(** [ref.current?.release()] on a nullable reference. *)
Definition release (ref : option Handle) (l : list Handle) : list Handle :=
  match ref with Some h => delete h l | None => l end.

(** [Set.prototype.add] on a set kept in insertion order. *)
Definition Set_add (h : Handle) (l : list Handle) : list Handle :=
  if existsb (Nat.eqb h) l then l else l ++ [h].

(** [process.env] and the outcome of [getUserMedia] when it is asked:
    [None] when the stream is granted, the rejection message otherwise. *)
Record Env := mkEnv {
  API_KEY : option string;
  getUserMedia : option string
}.

(** [!process.env.API_KEY]: the value is undefined or the empty string. *)
Definition keyMissing (env : Env) : bool :=
  match API_KEY env with
  | None => true
  | Some EmptyString => true
  | Some (String _ _) => false
  end.

End Browser.

(** ** Two-way conversation ([Conversation.tsx], lines 100-274) *)

Module Conversation.
Import JS AudioCodec Browser.

Inductive Role := user | model.

Record ConversationEntry := mkEntry { role : Role; text : JSString }.

Inductive Status := idle | connecting | listening | thinking.

Definition Status_eqb (a b : Status) : bool :=
  match a, b with
  | idle, idle | connecting, connecting
  | listening, listening | thinking, thinking => true
  | _, _ => false
  end.

(** The component: its React state, its refs, and the browser world.

    Every handler below is one reaction on the page's single timeline and
    is modelled as one step from state to state.  A handler called from the
    page belongs to the latest render, so the [status] its guard reads is
    the current one. *)
Record State := mkState {
  status : Status;
  conversation : list ConversationEntry;
  error : option string;
  sessionPromiseRef : option Handle;
  inputAudioContextRef : option Handle;
  outputAudioContextRef : option Handle;
  scriptProcessorRef : option Handle;
  mediaStreamRef : option Handle;
  nextStartTimeRef : Q;
  audioSourcesRef : list Handle;
  currentInputTextRef : JSString;
  currentOutputTextRef : JSString;
  world : World
}.

Definition initialState : State :=
  mkState idle [] None None None None None None 0 [] [] [] emptyWorld.

(** The content of a [LiveServerMessage].  [modelTurnAudio] is the buffer
    that [decodeAudioData(decode(base64Audio), ctx, 24000, 1)] yields for
    the first inline part of the model turn, [None] when the message has
    none.  A payload on which decoding throws is not a message of this
    model. *)
Record LiveServerMessage := mkMessage {
  inputTranscription : option JSString;
  outputTranscription : option JSString;
  modelTurnAudio : option AudioBuffer;
  interrupted : bool;
  turnComplete : bool
}.

Definition setStatus (s : Status) (st : State) : State :=
  mkState s (conversation st) (error st) (sessionPromiseRef st)
    (inputAudioContextRef st) (outputAudioContextRef st) (scriptProcessorRef st)
    (mediaStreamRef st) (nextStartTimeRef st) (audioSourcesRef st)
    (currentInputTextRef st) (currentOutputTextRef st) (world st).

Definition setConversation (f : list ConversationEntry -> list ConversationEntry)
    (st : State) : State :=
  mkState (status st) (f (conversation st)) (error st) (sessionPromiseRef st)
    (inputAudioContextRef st) (outputAudioContextRef st) (scriptProcessorRef st)
    (mediaStreamRef st) (nextStartTimeRef st) (audioSourcesRef st)
    (currentInputTextRef st) (currentOutputTextRef st) (world st).

Definition setError (e : option string) (st : State) : State :=
  mkState (status st) (conversation st) e (sessionPromiseRef st)
    (inputAudioContextRef st) (outputAudioContextRef st) (scriptProcessorRef st)
    (mediaStreamRef st) (nextStartTimeRef st) (audioSourcesRef st)
    (currentInputTextRef st) (currentOutputTextRef st) (world st).

Definition setInputText (t : JSString) (st : State) : State :=
  mkState (status st) (conversation st) (error st) (sessionPromiseRef st)
    (inputAudioContextRef st) (outputAudioContextRef st) (scriptProcessorRef st)
    (mediaStreamRef st) (nextStartTimeRef st) (audioSourcesRef st)
    t (currentOutputTextRef st) (world st).

Definition setOutputText (t : JSString) (st : State) : State :=
  mkState (status st) (conversation st) (error st) (sessionPromiseRef st)
    (inputAudioContextRef st) (outputAudioContextRef st) (scriptProcessorRef st)
    (mediaStreamRef st) (nextStartTimeRef st) (audioSourcesRef st)
    (currentInputTextRef st) t (world st).

(** The playback fields: the watermark, the set of scheduled sources and
    the world they live in. *)
Definition setPlayback (next : Q) (sources : list Handle) (w : World)
    (st : State) : State :=
  mkState (status st) (conversation st) (error st) (sessionPromiseRef st)
    (inputAudioContextRef st) (outputAudioContextRef st) (scriptProcessorRef st)
    (mediaStreamRef st) next sources
    (currentInputTextRef st) (currentOutputTextRef st) w.

(** [cleanup]: release whatever the refs hold, then null the refs. *)
Definition cleanup (st : State) : State :=
  let w := world st in
  mkState (status st) (conversation st) (error st) None None None None None
    (nextStartTimeRef st) (audioSourcesRef st)
    (currentInputTextRef st) (currentOutputTextRef st)
    (mkWorld (nextHandle w)
       (release (mediaStreamRef st) (capturing w))
       (release (scriptProcessorRef st) (taps w))
       (release (outputAudioContextRef st)
          (release (inputAudioContextRef st) (contexts w)))
       (release (sessionPromiseRef st) (sessions w))
       (started w) (stopped w)).

(** The [catch] block of [handleStart]. *)
Definition startFailed (errorMessage : string) (st : State) : State :=
  cleanup (setStatus idle
             (setError (Some ("Failed to start conversation: " ++ errorMessage)%string) st)).

(** [handleStart] as a closure of the render in which [status] had the
    value [renderStatus]: its guard reads that value (line 136), whatever
    the state has become since; the rest reads and writes the refs and calls
    the setters.  It is run to the point where the session has been
    requested (the continuation after [await getUserMedia] included). *)
Definition handleStartOf (renderStatus : Status) (env : Env) (st : State) : State :=
  if negb (Status_eqb renderStatus idle) then st else
  let st :=
    mkState connecting [] None (sessionPromiseRef st)
      (inputAudioContextRef st) (outputAudioContextRef st) (scriptProcessorRef st)
      (mediaStreamRef st) 0 (audioSourcesRef st) [] [] (world st) in
  if keyMissing env then startFailed "API_KEY environment variable not set." st else
  match getUserMedia env with
  | Some rejection => startFailed rejection st
  | None =>
      let w := world st in
      let stream := nextHandle w in
      let inputCtx := S stream in
      let outputCtx := S inputCtx in
      let session := S outputCtx in
      mkState (status st) (conversation st) (error st)
        (Some session) (Some inputCtx) (Some outputCtx) (scriptProcessorRef st)
        (Some stream) (nextStartTimeRef st) (audioSourcesRef st)
        (currentInputTextRef st) (currentOutputTextRef st)
        (mkWorld (S session)
           (capturing w ++ [stream]) (taps w)
           (contexts w ++ [inputCtx; outputCtx])
           (sessions w ++ [session])
           (started w) (stopped w))
  end.

(** The button of the page calls the closure of the latest render, whose
    [status] is the one of the state. *)
Definition handleStart (env : Env) (st : State) : State :=
  handleStartOf (status st) env st.

(** [handleStop], as the button calls it (the closure of the latest
    render). *)
Definition handleStop (st : State) : State :=
  if Status_eqb (status st) idle then st else setStatus idle (cleanup st).

(** The session callback [onopen]. *)
Definition onopen (st : State) : State :=
  let st := setStatus listening st in
  match inputAudioContextRef st, mediaStreamRef st with
  | Some _, Some _ =>
      let w := world st in
      let processor := nextHandle w in
      mkState (status st) (conversation st) (error st) (sessionPromiseRef st)
        (inputAudioContextRef st) (outputAudioContextRef st) (Some processor)
        (mediaStreamRef st) (nextStartTimeRef st) (audioSourcesRef st)
        (currentInputTextRef st) (currentOutputTextRef st)
        (mkWorld (S processor) (capturing w) (taps w ++ [processor])
           (contexts w) (sessions w) (started w) (stopped w))
  | _, _ => st
  end.

(** The four blocks of the session callback [onmessage]. *)
Definition onTranscription (message : LiveServerMessage) (st : State) : State :=
  let st := match inputTranscription message with
            | Some t => setInputText t st
            | None => st
            end in
  match outputTranscription message with
  | Some t => setStatus thinking (setOutputText t st)
  | None => st
  end.

Definition onAudio (currentTime : Q) (message : LiveServerMessage) (st : State)
  : State :=
  match modelTurnAudio message, outputAudioContextRef st with
  | Some audioBuffer, Some _ =>
      let w := world st in
      let source := nextHandle w in
      let startTime := Math_max currentTime (nextStartTimeRef st) in
      setPlayback (startTime + duration audioBuffer)
        (Set_add source (audioSourcesRef st))
        (mkWorld (S source) (capturing w) (taps w) (contexts w) (sessions w)
           (started w ++ [mkStartCall source startTime audioBuffer])
           (stopped w))
        st
  | _, _ => st
  end.

Definition onInterrupted (message : LiveServerMessage) (st : State) : State :=
  if interrupted message then
    let w := world st in
    setPlayback 0 []
      (mkWorld (nextHandle w) (capturing w) (taps w) (contexts w) (sessions w)
         (started w) (stopped w ++ audioSourcesRef st))
      st
  else st.

Definition onTurnComplete (message : LiveServerMessage) (st : State) : State :=
  if turnComplete message then
    let userTurn := mkEntry user (trim (currentInputTextRef st)) in
    let modelTurn := mkEntry model (trim (currentOutputTextRef st)) in
    let st := if truthy (text userTurn) || truthy (text modelTurn)
              then setConversation (fun prev => prev ++ [userTurn; modelTurn]) st
              else st in
    setStatus listening (setOutputText [] (setInputText [] st))
  else st.

(** The session callback [onmessage]; [currentTime] is the reading of the
    output context's clock when the chunk is scheduled. *)
Definition onmessage (currentTime : Q) (message : LiveServerMessage) (st : State)
  : State :=
  onTurnComplete message
    (onInterrupted message
       (onAudio currentTime message
          (onTranscription message st))).

(** [source.onended]. *)
Definition onended (source : Handle) (st : State) : State :=
  setPlayback (nextStartTimeRef st) (delete source (audioSourcesRef st)) (world st) st.

(** The session callback [onclose]. *)
Definition onclose (st : State) : State := setStatus idle st.

(** A run of messages, each with the clock reading at its arrival. *)
Fixpoint run (ms : list (Q * LiveServerMessage)) (st : State) : State :=
  match ms with
  | [] => st
  | (t, m) :: rest => run rest (onmessage t m st)
  end.

(** What happens to the component, one event at a time: a click on one of
    the two buttons, handled by the closure of the latest render, and the
    callbacks of the session and of the audio sources. *)
Inductive Event :=
| Start (env : Env)
| Stop
| Open
| Message (currentTime : Q) (message : LiveServerMessage)
| Ended (source : Handle)
| Close.

Definition step (st : State) (e : Event) : State :=
  match e with
  | Start env => handleStart env st
  | Stop => handleStop st
  | Open => onopen st
  | Message t m => onmessage t m st
  | Ended s => onended s st
  | Close => onclose st
  end.

Definition runEvents (es : list Event) (st : State) : State := fold_left step es st.

End Conversation.

(** ** Single-direction transcriber ([ImageEditor.tsx], [AudioTranscriber],
       lines 770-895) *)

Module AudioTranscriber.
Import JS Browser.

Record State := mkState {
  isRecording : bool;
  transcription : JSString;
  interimTranscript : JSString;
  error : option string;
  sessionPromiseRef : option Handle;
  audioContextRef : option Handle;
  scriptProcessorRef : option Handle;
  mediaStreamRef : option Handle;
  currentTurnTextRef : JSString;
  world : World
}.

Definition initialState : State :=
  mkState false [] [] None None None None None [] emptyWorld.

(** The message fields the transcriber reads. *)
Record LiveServerMessage := mkMessage {
  inputTranscription : option JSString;
  turnComplete : bool
}.

(** [cleanup]: each ref is released and nulled when it is set; the audio
    context only when its state is not ['closed']. *)
Definition cleanup (st : State) : State :=
  let w := world st in
  mkState (isRecording st) (transcription st) (interimTranscript st) (error st)
    None
    match audioContextRef st with
    | Some ctx => if existsb (Nat.eqb ctx) (contexts w) then None else Some ctx
    | None => None
    end
    None None (currentTurnTextRef st)
    (mkWorld (nextHandle w)
       (release (mediaStreamRef st) (capturing w))
       (release (scriptProcessorRef st) (taps w))
       (release (audioContextRef st) (contexts w))
       (release (sessionPromiseRef st) (sessions w))
       (started w) (stopped w)).

Definition setRecordingError (r : bool) (e : option string) (st : State) : State :=
  mkState r (transcription st) (interimTranscript st) e
    (sessionPromiseRef st) (audioContextRef st) (scriptProcessorRef st)
    (mediaStreamRef st) (currentTurnTextRef st) (world st).

(** The [catch] block of [handleStartRecording]. *)
Definition startFailed (errorMessage : string) (st : State) : State :=
  cleanup (setRecordingError false
             (Some ("Failed to start recording: " ++ errorMessage)%string) st).

(** [handleStartRecording] as a closure of the render in which
    [isRecording] had the value [renderRecording]: its guard reads that value
    (line 810).  It is run to the point where the session has been
    requested. *)
Definition handleStartRecordingOf (renderRecording : bool) (env : Env) (st : State)
  : State :=
  if renderRecording then st else
  let st :=
    mkState true [] [] None
      (sessionPromiseRef st) (audioContextRef st) (scriptProcessorRef st)
      (mediaStreamRef st) [] (world st) in
  if keyMissing env then startFailed "API_KEY environment variable not set." st else
  match getUserMedia env with
  | Some rejection => startFailed rejection st
  | None =>
      let w := world st in
      let stream := nextHandle w in
      let ctx := S stream in
      let session := S ctx in
      mkState (isRecording st) (transcription st) (interimTranscript st) (error st)
        (Some session) (Some ctx) (scriptProcessorRef st) (Some stream)
        (currentTurnTextRef st)
        (mkWorld (S session)
           (capturing w ++ [stream]) (taps w) (contexts w ++ [ctx])
           (sessions w ++ [session]) (started w) (stopped w))
  end.

(** The button of the page calls the closure of the latest render. *)
Definition handleStartRecording (env : Env) (st : State) : State :=
  handleStartRecordingOf (isRecording st) env st.

(** [handleStopRecording], as the button calls it. *)
Definition handleStopRecording (st : State) : State :=
  if negb (isRecording st) then st
  else cleanup (setRecordingError false (error st) st).

(** The session callback [onopen]. *)
Definition onopen (st : State) : State :=
  match audioContextRef st, mediaStreamRef st with
  | Some _, Some _ =>
      let w := world st in
      let processor := nextHandle w in
      mkState (isRecording st) (transcription st) (interimTranscript st) (error st)
        (sessionPromiseRef st) (audioContextRef st) (Some processor)
        (mediaStreamRef st) (currentTurnTextRef st)
        (mkWorld (S processor) (capturing w) (taps w ++ [processor])
           (contexts w) (sessions w) (started w) (stopped w))
  | _, _ => st
  end.

Definition setTexts (committed interim current : JSString) (st : State) : State :=
  mkState (isRecording st) committed interim (error st)
    (sessionPromiseRef st) (audioContextRef st) (scriptProcessorRef st)
    (mediaStreamRef st) current (world st).

(** The session callback [onmessage]. *)
Definition onmessage (message : LiveServerMessage) (st : State) : State :=
  let st := match inputTranscription message with
            | Some partialText => setTexts (transcription st) partialText partialText st
            | None => st
            end in
  if turnComplete message then
    let finalTurnText := trim (currentTurnTextRef st) in
    let prev := transcription st in
    let committed :=
      if truthy finalTurnText
      then prev ++ (if truthy prev then str (String "010"%char EmptyString) else [])
                ++ finalTurnText
      else prev in
    setTexts committed [] [] st
  else st.

(** The session callback [onclose]: it logs, and nothing else. *)
Definition onclose (st : State) : State := st.

Fixpoint run (ms : list LiveServerMessage) (st : State) : State :=
  match ms with
  | [] => st
  | m :: rest => run rest (onmessage m st)
  end.

Inductive Event :=
| Start (env : Env)
| Stop
| Open
| Message (message : LiveServerMessage)
| Close.

Definition step (st : State) (e : Event) : State :=
  match e with
  | Start env => handleStartRecording env st
  | Stop => handleStopRecording st
  | Open => onopen st
  | Message m => onmessage m st
  | Close => onclose st
  end.

Definition runEvents (es : list Event) (st : State) : State := fold_left step es st.

End AudioTranscriber.

(** ** One-shot generation calls ([services/geminiService.ts]) *)

Module GeminiService.
Import Browser.
Local Open Scope string_scope.

Record ImageFile := mkImage { base64 : string; mimeType : string; name : string }.

(** [s.split(sep)] for a one-character separator. *)
Fixpoint split (sep : ascii) (s : string) : list string :=
  match s with
  | EmptyString => [EmptyString]
  | String c r =>
      if Ascii.eqb c sep then EmptyString :: split sep r
      else match split sep r with
           | h :: t => String c h :: t
           | [] => [String c EmptyString]
           end
  end.

(** A part of a request: inline data (its [data] is [undefined] when the
    data URL has no comma) or text. *)
Inductive Part :=
| inlineData (data : option string) (mime : string)
| text (t : string).

Definition inlineOf (image : ImageFile) : Part :=
  inlineData (nth_error (split ","%char (base64 image)) 1) (mimeType image).

Record Config := mkConfig {
  responseModalities : list string;
  aspectRatio : option string;
  imageSize : option string;
  voiceName : option string
}.

Record Request := mkRequest { model : string; parts : list Part; config : Config }.

(** What the code reads of a response: [response.text], and for each part
    of the first candidate its inline data (mime type, data) if any. *)
Record Response := mkResponse {
  responseText : option string;
  candidateParts : list (option (string * string))
}.

(** The remote service: a request is answered or rejected with a message. *)
Definition Remote := Request -> string + Response.

(** The run of a call: the requests sent, then a thrown error message
    ([inl]) or the returned value ([inr]). *)
Record Outcome := mkOutcome { requests : list Request; result : string + string }.

Definition threw (message : string) : Outcome := mkOutcome [] (inl message).

(** [await ai.models.generateContent(request)] followed by [k]. *)
Definition generateContent (remote : Remote) (request : Request)
    (k : Response -> string + string) : Outcome :=
  mkOutcome [request]
    match remote request with
    | inl e => inl e
    | inr response => k response
    end.

(** [parts?.find(p => p.inlineData)] turned into a data URL, or the
    failure of the call. *)
Definition imageResult (failure : string) (response : Response) : string + string :=
  match find (fun p => match p with Some _ => true | None => false end)
             (candidateParts response) with
  | Some (Some (mime, data)) => inr ("data:" ++ mime ++ ";base64," ++ data)
  | _ => inl failure
  end.

Definition imageConfig (ratio : option string) : Config :=
  mkConfig ["IMAGE"] ratio None None.

(** The instruction sent by [extractPromptFromImage] is a fixed text of ten
    lines; it stands here by its first line. *)
Definition extractPromptFromImage (env : Env) (remote : Remote) (image : ImageFile)
  : Outcome :=
  if keyMissing env then threw "API_KEY environment variable not set." else
  generateContent remote
    (mkRequest "gemini-3-flash-preview"
       [inlineOf image; text "CRITICAL VISION ANALYSIS TASK"]
       (mkConfig [] None None None))
    (fun response =>
       match responseText response with
       | Some (String c r) => inr (String c r)
       | _ => inr "Could not extract prompt."
       end).

(** [width] and [height] are the positive integers its caller parsed; the
    quotient and the literals 1.2, 0.6 and 0.8 are doubles (1.5 is one as it
    stands). *)
Definition generativeResize (env : Env) (remote : Remote) (image : ImageFile)
    (width height : Z) : Outcome :=
  if keyMissing env then threw "API_KEY not set." else
  let ratio := JS.toDouble (inject_Z width / inject_Z height) in
  let aspect :=
    if Qlt_le_dec (3 # 2) ratio then "16:9"
    else if Qlt_le_dec (JS.toDouble (6 # 5)) ratio then "4:3"
    else if Qlt_le_dec ratio (JS.toDouble (3 # 5)) then "9:16"
    else if Qlt_le_dec ratio (JS.toDouble (4 # 5)) then "3:4"
    else "1:1" in
  generateContent remote
    (mkRequest "gemini-2.5-flash-image"
       [inlineOf image;
        text ("Outpaint and expand this image to " ++ aspect
              ++ " without stretching objects.")]
       (imageConfig (Some aspect)))
    (imageResult "Resize failed.").

Definition editImage (env : Env) (remote : Remote) (image : ImageFile)
    (prompt : string) : Outcome :=
  if keyMissing env then threw "API_KEY not set." else
  generateContent remote
    (mkRequest "gemini-2.5-flash-image" [inlineOf image; text prompt]
       (imageConfig None))
    (imageResult "Edit failed.").

Definition faceSwap (env : Env) (remote : Remote) (sourceFace targetImage : ImageFile)
  : Outcome :=
  if keyMissing env then threw "API_KEY not set." else
  generateContent remote
    (mkRequest "gemini-3-pro-image-preview"
       [text "SOURCE IDENTITY (Use this face):"; inlineOf sourceFace;
        text "TARGET BASE (Keep everything else):"; inlineOf targetImage;
        text "Replace target's face with source's face seamlessly."]
       (imageConfig (Some "1:1")))
    (imageResult "Face swap failed.").

Definition generateImageFromText (env : Env) (remote : Remote) (prompt : string)
    (ratio : string) : Outcome :=
  if keyMissing env then threw "API_KEY not set." else
  let wide := String.eqb ratio "4096x832" in
  generateContent remote
    (mkRequest
       (if wide then "gemini-3-pro-image-preview" else "gemini-2.5-flash-image")
       [text prompt]
       (if wide then mkConfig ["IMAGE"] (Some "16:9") (Some "4K") None
        else imageConfig (Some ratio)))
    (imageResult "Generation failed.").

Definition generateSpeech (env : Env) (remote : Remote) (content voice : string)
    (language : option string) : Outcome :=
  if keyMissing env then threw "API_KEY not set." else
  let prompt :=
    match language with
    | Some (String c r) =>
        if String.eqb (String c r) "Auto" then content
        else "Speak the following text in " ++ String c r ++ ": " ++ content
    | _ => content
    end in
  generateContent remote
    (mkRequest "gemini-2.5-flash-preview-tts" [text prompt]
       (mkConfig ["AUDIO"] None None (Some voice)))
    (fun response =>
       match candidateParts response with
       | Some (_, String c r) :: _ => inr (String c r)
       | _ => inr ""
       end).

Definition upscaleImage (env : Env) (remote : Remote) (image : ImageFile) : Outcome :=
  if keyMissing env then threw "API_KEY not set." else
  generateContent remote
    (mkRequest "gemini-2.5-flash-image"
       [inlineOf image; text "Upscale this image, enhancing resolution and details."]
       (imageConfig None))
    (imageResult "Upscaling failed.").

Definition generateImageFromElements (env : Env) (remote : Remote)
    (subject scene style : list ImageFile) (prompt : string) : Outcome :=
  if keyMissing env then threw "API_KEY not set." else
  generateContent remote
    (mkRequest "gemini-2.5-flash-image"
       (text ("Generate image combining subject, scene, style. " ++ prompt)
        :: map inlineOf (subject ++ scene ++ style))
       (imageConfig None))
    (imageResult "Generation failed.").

Definition restyleImage (env : Env) (remote : Remote) (original style : ImageFile)
    (prompt : string) : Outcome :=
  if keyMissing env then threw "API_KEY not set." else
  generateContent remote
    (mkRequest "gemini-2.5-flash-image"
       [inlineOf original; inlineOf style;
        text ("Apply style to original. " ++ prompt)]
       (imageConfig None))
    (imageResult "Restyle failed.").

Definition virtualTryOn (env : Env) (remote : Remote) (person garment : ImageFile)
  : Outcome :=
  if keyMissing env then threw "API_KEY not set." else
  generateContent remote
    (mkRequest "gemini-2.5-flash-image"
       [inlineOf person; inlineOf garment;
        text "Place garment onto person in model image."]
       (imageConfig None))
    (imageResult "Try-on failed.").

Definition virtualTryOnMultiple (env : Env) (remote : Remote) (person : ImageFile)
    (garments : list ImageFile) : Outcome :=
  if keyMissing env then threw "API_KEY not set." else
  generateContent remote
    (mkRequest "gemini-2.5-flash-image"
       (inlineOf person :: map inlineOf garments
        ++ [text "Place all garments as an outfit."])
       (imageConfig None))
    (imageResult "Multi try-on failed.").

End GeminiService.

(** ** The pages that make the one-shot calls

    A page is modelled by what it shows after a handler has run to its end:
    the error line, the result, the console, and the traffic it caused. *)

Module Pages.
Import Browser GeminiService.
Local Open Scope string_scope.

Record Page := mkPage {
  error : option string;        (* the rendered alert *)
  output : option string;       (* the rendered result *)
  console : list string;        (* [console.error] lines *)
  sent : list Request;          (* requests made to the generation service *)
  fetched : list string         (* pictures fetched by URL *)
}.

Definition blank : Page := mkPage None None [] [] [].

(** A guard that refuses the click: [setError(message); return]. *)
Definition refuse (message : string) (p : Page) : Page :=
  mkPage (Some message) (output p) (console p) (sent p) (fetched p).

(** [setError(null); setResult(null); try { setResult(await call) }
    catch (e) { setError(prefix + e.message); console.error(e) }];
    [logged] tells whether the catch block logs. *)
Definition attempt (prefix : string) (logged : bool) (call : Outcome) (p : Page)
  : Page :=
  match result call with
  | inr value =>
      mkPage None (Some value) (console p) (sent p ++ requests call) (fetched p)
  | inl message =>
      mkPage (Some (prefix ++ message)) None
        (if logged then console p ++ [message] else console p)
        (sent p ++ requests call) (fetched p)
  end.

Definition empty (s : string) : bool :=
  match s with EmptyString => true | String _ _ => false end.

Module ImageEditor.
Definition handleGenerateClick (env : Env) (remote : Remote)
    (originalImage : option ImageFile) (prompt : string) (p : Page) : Page :=
  match originalImage with
  | Some image =>
      if empty prompt
      then refuse "Please upload an image and provide an editing prompt." p
      else attempt "Generation failed: " true (editImage env remote image prompt) p
  | None => refuse "Please upload an image and provide an editing prompt." p
  end.
End ImageEditor.

Module ImageEffects.
(** [selectedEffect] is given by its prompt. *)
Definition handleGenerateClick (env : Env) (remote : Remote)
    (originalImage : option ImageFile) (selectedEffect : option string) (p : Page)
  : Page :=
  match originalImage, selectedEffect with
  | Some image, Some effectPrompt =>
      attempt "Generation failed: " true (editImage env remote image effectPrompt) p
  | _, _ => refuse "Please upload an image and select an effect." p
  end.
End ImageEffects.

Module ImageReferenceGenerator.
Definition withRatio (prompt ratio : string) : string :=
  prompt ++ " Ensure the final image has a " ++ ratio ++ " aspect ratio.".

Definition handleGenerate (env : Env) (remote : Remote)
    (subjectImages sceneImages styleImages : list ImageFile)
    (prompt ratio : string) (p : Page) : Page :=
  match subjectImages, sceneImages, styleImages with
  | [], [], [] => refuse "Please upload at least one image element." p
  | _, _, _ =>
      attempt "Generation failed: " true
        (generateImageFromElements env remote subjectImages sceneImages styleImages
           (withRatio prompt ratio)) p
  end.

Definition handleRestyleGenerate (env : Env) (remote : Remote)
    (restyleOriginalImage restyleStyleImage : list ImageFile)
    (prompt ratio : string) (p : Page) : Page :=
  match restyleOriginalImage, restyleStyleImage with
  | original :: _, style :: _ =>
      attempt "Generation failed: " true
        (restyleImage env remote original style (withRatio prompt ratio)) p
  | _, _ => refuse "Please upload an original image and a style image." p
  end.

(** The key-selection dialogue offered before a 4096x832 picture is
    local to the hosting frame and leaves the page as it is. *)
Definition handleTextToImageGenerate (env : Env) (remote : Remote)
    (prompt ratio : string) (p : Page) : Page :=
  if empty prompt then refuse "Please enter a prompt to generate an image." p
  else attempt "Generation failed: " true
         (generateImageFromText env remote prompt ratio) p.
End ImageReferenceGenerator.

Module ImageUpscaler.
Definition handleUpscaleClick (env : Env) (remote : Remote)
    (originalImage : option ImageFile) (p : Page) : Page :=
  match originalImage with
  | Some image => attempt "Upscaling failed: " true (upscaleImage env remote image) p
  | None => refuse "Please upload an image to upscale." p
  end.
End ImageUpscaler.

Module ImageSizer.
(** [handleResize] in its ['ai'] mode; [errorUpload] and
    [errorDimensions] are entries of the translation table, and the
    two dimensions are what [parseInt] made of the fields ([None] for
    NaN). *)
Definition handleResize (env : Env) (remote : Remote)
    (errorUpload errorDimensions : string)
    (originalImage : option ImageFile) (targetWidth targetHeight : option Z)
    (p : Page) : Page :=
  match originalImage with
  | None => refuse errorUpload p
  | Some image =>
      match targetWidth, targetHeight with
      | Some w, Some h =>
          if ((w <=? 0) || (h <=? 0))%Z then refuse errorDimensions p
          else attempt "" false (generativeResize env remote image w h) p
      | _, _ => refuse errorDimensions p
      end
  end.
End ImageSizer.

Module PromptExtractor.
(** [media] is absent, or a picture, or a video of which [captureFrame]
    took a frame or failed to. *)
Definition handleExtract (env : Env) (remote : Remote) (errorUpload : string)
    (media : option (option ImageFile)) (p : Page) : Page :=
  match media with
  | None => refuse errorUpload p
  | Some None => refuse "Could not process media." p
  | Some (Some imageToProcess) =>
      attempt "" false (extractPromptFromImage env remote imageToProcess) p
  end.
End PromptExtractor.

(** The browser's [atob]: the bytes of the decoded text, or the message of
    the error it throws on a text that is not base64. *)
Definition Atob := string -> string + list Z.

(** [createWavUrl(base64Audio)] as the speech handlers run it: [atob], then
    the container of the bytes. *)
Definition wavOf (atob : Atob) (base64Audio : string) : string + list Z :=
  match atob base64Audio with
  | inl message => inl message
  | inr pcmData =>
      match Wav.createWavUrl pcmData with
      | Some wav => inr wav
      | None => inl "Offset is outside the bounds of the DataView"
      end
  end.

(** [const base64Audio = await call; const url = createWavUrl(base64Audio)]
    inside one [try]: the value is kept when the container could be made. *)
Definition thenWav (atob : Atob) (call : Outcome) : Outcome :=
  mkOutcome (requests call)
    match result call with
    | inl message => inl message
    | inr base64Audio =>
        match wavOf atob base64Audio with
        | inl message => inl message
        | inr _ => inr base64Audio
        end
    end.

Module TTS.
(** [handlePreview]: the catch block logs and sets no error, whether the
    call, [createWavUrl] or [audio.play()] failed; [play] is the rejection
    of [audio.play()], if any. *)
Definition handlePreview (env : Env) (remote : Remote) (atob : Atob)
    (play : option string) (isPreviewing : bool) (selectedVoice : string) (p : Page)
  : Page :=
  if isPreviewing then p else
  let call := thenWav atob
                (generateSpeech env remote "Hello! I can read any text you want."
                   selectedVoice (Some "English")) in
  mkPage (error p) (output p)
    match result call, play with
    | inl message, _ => console p ++ ["Preview failed: " ++ message]
    | inr _, Some message => console p ++ ["Preview failed: " ++ message]
    | inr _, None => console p
    end
    (sent p ++ requests call) (fetched p).

(** [handleGenerateSpeech]; the result shown is the player of the
    container made of the returned payload. *)
Definition handleGenerateSpeech (env : Env) (remote : Remote) (atob : Atob)
    (content selectedVoice selectedLanguage : string) (p : Page) : Page :=
  if empty content then refuse "Please enter some text to generate speech." p
  else attempt "Speech generation failed: " true
         (thenWav atob
            (generateSpeech env remote content selectedVoice (Some selectedLanguage))) p.
End TTS.

Module VirtualTryOn.
(** The model picture: the uploaded one (if any), or the picture behind
    [selectedModelUrl] with what [urlToImageFile] made of it. *)
Inductive ModelChoice :=
| upload (uploadedModel : option ImageFile)
| default (selectedModelUrl : string) (fetchedFile : string + ImageFile).

(** The garments: a single one (if any) or several. *)
Inductive GarmentChoice :=
| single (garmentImage : option ImageFile)
| multiple (multipleGarments : list ImageFile).

Definition handleGenerateClick (env : Env) (remote : Remote)
    (modelChoice : ModelChoice) (garments : GarmentChoice) (p : Page) : Page :=
  let p := mkPage None None (console p) (sent p)
             match modelChoice with
             | upload _ => fetched p
             | default url _ => fetched p ++ [url]
             end in
  let failed message :=
    mkPage (Some ("Generation failed: " ++ message)) None
      (console p ++ [message]) (sent p) (fetched p) in
  let withModel finalModelImageFile :=
    match finalModelImageFile, garments with
    | None, _ => refuse "A model image is required." p
    | Some _, single None => refuse "Please upload a garment image." p
    | Some person, single (Some garment) =>
        attempt "Generation failed: " true (virtualTryOn env remote person garment) p
    | Some _, multiple [] =>
        refuse "Please upload at least one garment image for the outfit." p
    | Some person, multiple gs =>
        attempt "Generation failed: " true
          (virtualTryOnMultiple env remote person gs) p
    end in
  match modelChoice with
  | upload uploadedModel => withModel uploadedModel
  | default _ (inl message) => failed message
  | default _ (inr file) => withModel (Some file)
  end.
End VirtualTryOn.

(** The face swap page ([components/icons/GarmentUploadIcon.tsx], lines
    24-102). *)
Module FaceSwap.
(** The page with its [hasKey] flag. *)
Record State := mkState { page : Page; hasKey : bool }.

(** The key dialogue of the hosting frame: absent, or opening, or throwing. *)
Inductive KeySelector := absent | opens | fails.

(** [s.includes(needle)]. *)
Fixpoint includes (needle s : string) : bool :=
  String.prefix needle s ||
  match s with
  | EmptyString => false
  | String _ r => includes needle r
  end.

Definition handleOpenKeySelector (selector : KeySelector) (st : State) : State :=
  match selector with
  | absent => st
  | opens => mkState (page st) true
  | fails => mkState (refuse "Error opening key selector." (page st)) (hasKey st)
  end.

(** [handleSwapClick]; [errorKey] is an entry of the translation table.
    The catch block does not log. *)
Definition handleSwapClick (env : Env) (remote : Remote) (errorKey : string)
    (selector : KeySelector) (sourceFace targetImage : option ImageFile) (st : State)
  : State :=
  if negb (hasKey st)
  then handleOpenKeySelector selector (mkState (refuse errorKey (page st)) (hasKey st))
  else
    match sourceFace, targetImage with
    | Some source, Some target =>
        let call := faceSwap env remote source target in
        mkState (attempt "Error: " false call (page st))
          match result call with
          | inl errorMessage =>
              if includes "entity was not found" errorMessage then false else hasKey st
          | inr _ => hasKey st
          end
    | _, _ => mkState (refuse "Please upload both images." (page st)) (hasKey st)
    end.
End FaceSwap.

End Pages.

(** ** The vocabulary of the specification *)

Module Spec.
Import JS AudioCodec Browser.

(** Quantization tolerance: [y] is within 1/32768 of [x]. *)
Definition close (x y : Q) : Prop := (Qabs (y - x) <= 1 # 32768)%Q.

(** The 44 bytes of a container header that declares [dataSize] payload
    bytes, field by field. *)
Definition header (dataSize : Z) : list Z :=
let le16 v := let u := ToUint16 v in [Z.land u 255; Z.land (Z.shiftr u 8) 255] in
let le32 v := let u := ToUint32 v in
              [Z.land u 255; Z.land (Z.shiftr u 8) 255;
               Z.land (Z.shiftr u 16) 255; Z.land (Z.shiftr u 24) 255] in
[82; 73; 70; 70] ++ le32 (36 + dataSize) ++ [87; 65; 86; 69]
++ [102; 109; 116; 32] ++ le32 16 ++ le16 1 ++ le16 Wav.numChannels
++ le32 Wav.sampleRate ++ le32 Wav.byteRate ++ le16 Wav.blockAlign
++ le16 Wav.bitsPerSample
++ [100; 97; 116; 97] ++ le32 dataSize.

(** The chunks of a run of messages: the clock reading and the buffer of
    every message that carries audio, in arrival order. *)
Definition arrivals (ms : list (Q * Conversation.LiveServerMessage))
  : list (Q * AudioBuffer) :=
flat_map (fun tm => match Conversation.modelTurnAudio (snd tm) with
                    | Some b => [(fst tm, b)]
                    | None => []
                    end) ms.

(** The scheduling rule in the specification's words: a chunk starts at
    the later of the clock and the watermark, and the watermark moves to its
    end. *)
Fixpoint plan (nextStartTime : Q) (chunks : list (Q * AudioBuffer))
  : list (Q * AudioBuffer) :=
match chunks with
| [] => []
| (currentTime, chunk) :: rest =>
    let startTime := Math_max currentTime nextStartTime in
    (startTime, chunk) :: plan (startTime + duration chunk) rest
end.

Fixpoint watermark (nextStartTime : Q) (chunks : list (Q * AudioBuffer)) : Q :=
match chunks with
| [] => nextStartTime
| (currentTime, chunk) :: rest =>
    watermark (Math_max currentTime nextStartTime + duration chunk) rest
end.

(** When and what a [source.start] call plays. *)
Definition timing (c : StartCall) : Q * AudioBuffer := (startTime c, buffer c).

(** Overwrite-latest: the partial buffer after an optional new fragment. *)
Definition latest (fresh : option JSString) (stored : JSString) : JSString :=
match fresh with Some t => t | None => stored end.

(** A conversation log made of turns, each a user entry followed by a model
    entry of which at least one has text. *)
Fixpoint turns_ok (log : list Conversation.ConversationEntry) : bool :=
match log with
| [] => true
| Conversation.mkEntry Conversation.user u
    :: Conversation.mkEntry Conversation.model v :: rest =>
    (truthy u || truthy v) && turns_ok rest
| _ => false
end.

(** The page shows [message] as its error, and the handler sent nothing to
    the generation service. *)
Definition alerts (message : string) (before after : Pages.Page) : Prop :=
Pages.error after = Some message /\ Pages.sent after = Pages.sent before.

(** Nothing is held any more: no capturing stream, no connected tap, no open
    audio context, no open session. *)
Definition released (w : World) : Prop :=
capturing w = [] /\ taps w = [] /\ contexts w = [] /\ sessions w = [].

End Spec.

(** ** A session used to exercise the statements *)

Module Scenario.
Import JS AudioCodec Browser.

(** A credential is set and the microphone is granted. *)
Definition env : Env := mkEnv (Some "key"%string) None.

(** No credential is set. *)
Definition noKey : Env := mkEnv None None.

(** The conversation once started and open. *)
Definition listening : Conversation.State :=
Conversation.runEvents [Conversation.Start env; Conversation.Open]
  Conversation.initialState.

(** The transcriber once started and open. *)
Definition recording : AudioTranscriber.State :=
AudioTranscriber.runEvents [AudioTranscriber.Start env; AudioTranscriber.Open]
  AudioTranscriber.initialState.

(** A silent mono chunk of [frames] frames at 24 kHz. *)
Definition chunk (frames : nat) : AudioBuffer :=
mkAudioBuffer 1 frames 24000 [repeat 0%Q frames].

Definition audio (frames : nat) : Conversation.LiveServerMessage :=
Conversation.mkMessage None None (Some (chunk frames)) false false.

Definition interruption : Conversation.LiveServerMessage :=
Conversation.mkMessage None None None true false.

Definition heard (t : string) : Conversation.LiveServerMessage :=
Conversation.mkMessage (Some (str t)) None None false false.

Definition said (t : string) : Conversation.LiveServerMessage :=
Conversation.mkMessage None (Some (str t)) None false false.

Definition turnEnd : Conversation.LiveServerMessage :=
Conversation.mkMessage None None None false true.

(** Three chunks of 10 ms, 20 ms and 10 ms arriving at 0 s, 5 ms and 1 s. *)
Definition three_chunks : list (Q * Conversation.LiveServerMessage) :=
[(0, audio 240); (1 # 200, audio 480); (1, audio 240)]%Q.

(** Two chunks scheduled on the open conversation, both still playing. *)
Definition two_playing : Conversation.State :=
Conversation.run [(0%Q, audio 240); (0%Q, audio 240)] listening.

(** A transcript fragment arriving at 1.5 s. *)
Definition small_talk : list (Q * Conversation.LiveServerMessage) :=
[((3 # 2)%Q, said "hello")].

(** The open conversation after the user's words have been transcribed. *)
Definition user_spoke : Conversation.State :=
Conversation.run [(0%Q, heard " hi ")] listening.

(** A transcriber message that carries a fragment and completes the turn. *)
Definition dictated : AudioTranscriber.LiveServerMessage :=
AudioTranscriber.mkMessage (Some (str "take a note")) true.

(** A conversation that was used (a committed turn, a pending fragment, a
    scheduled chunk) and then stopped. *)
Definition used : Conversation.State :=
Conversation.runEvents
  [Conversation.Message 0 (heard "hi"); Conversation.Message 0 turnEnd;
   Conversation.Message 0 (heard "again"); Conversation.Message 0 (audio 240);
   Conversation.Stop]
  listening.

(** A transcriber that committed a turn and was stopped. *)
Definition dictation_done : AudioTranscriber.State :=
AudioTranscriber.runEvents
  [AudioTranscriber.Message dictated; AudioTranscriber.Stop] recording.

(** A service that is never reached answers nothing. *)
Definition offline : GeminiService.Remote := fun _ => inl "offline"%string.

Definition picture : GeminiService.ImageFile :=
GeminiService.mkImage "data:image/jpeg;base64,AAAA" "image/jpeg" "a.jpg".

(** A decoder that finds every text well formed, of no byte. *)
Definition decoder : Pages.Atob := fun _ => inr [].

End Scenario.

(** ** The error callbacks ([Conversation.tsx], lines 235-249;
       [ImageEditor.tsx], lines 867-871) *)

Module SessionErrors.
Import JS Browser.

(** [s.startsWith(needle)] and [s.includes(needle)] on code units. *)
Fixpoint startsWith (needle s : JSString) : bool :=
  match needle, s with
  | [], _ => true
  | _ :: _, [] => false
  | a :: needle', b :: s' => N.eqb a b && startsWith needle' s'
  end.

Fixpoint includes (needle s : JSString) : bool :=
  startsWith needle s ||
  match s with
  | [] => false
  | _ :: s' => includes needle s'
  end.






End SessionErrors.

(** ** Further vocabulary for the statements *)

Module Terms.
Import JS AudioCodec Browser.

(** A byte of a buffer. *)
Definition byte (b : Z) : Prop := 0 <= b < 256.

(** The texts joined by line feeds. *)
Fixpoint joinLines (texts : list JSString) : JSString :=
  match texts with
  | [] => []
  | [t] => t
  | t :: rest => t ++ [10%N] ++ joinLines rest
  end.

(** A text that neither starts nor ends with white space. *)
Definition trimmed (s : JSString) : Prop :=
  match s with
  | [] => True
  | c :: _ => isWhiteSpace c = false /\ isWhiteSpace (last s c) = false
  end.

(** The same refs, and the same streams, taps, contexts and sessions in
    the world. *)
Definition sameDevices (st st' : Conversation.State) : Prop :=
  Conversation.sessionPromiseRef st' = Conversation.sessionPromiseRef st /\
  Conversation.inputAudioContextRef st' = Conversation.inputAudioContextRef st /\
  Conversation.outputAudioContextRef st' = Conversation.outputAudioContextRef st /\
  Conversation.scriptProcessorRef st' = Conversation.scriptProcessorRef st /\
  Conversation.mediaStreamRef st' = Conversation.mediaStreamRef st /\
  capturing (Conversation.world st') = capturing (Conversation.world st) /\
  taps (Conversation.world st') = taps (Conversation.world st) /\
  contexts (Conversation.world st') = contexts (Conversation.world st) /\
  sessions (Conversation.world st') = sessions (Conversation.world st).

(** The set of scheduled sources holds no source twice, and only sources
    that exist and were started. *)
Definition sourcesTracked (st : Conversation.State) : Prop :=
  NoDup (Conversation.audioSourcesRef st) /\
  forall s, In s (Conversation.audioSourcesRef st) ->
            (s < nextHandle (Conversation.world st))%nat /\
            In s (map source (started (Conversation.world st))).

(** The messages and source ends of an open session, as events. *)
Definition duringSession (e : Conversation.Event) : bool :=
  match e with
  | Conversation.Message _ _ | Conversation.Ended _ => true
  | _ => false
  end.

(** The fragments a run of messages carries for the user's side and for
    the model's side, in arrival order. *)
Definition heardFragments (ms : list (Q * Conversation.LiveServerMessage))
  : list JSString :=
  flat_map (fun tm => match Conversation.inputTranscription (snd tm) with
                      | Some t => [t]
                      | None => []
                      end) ms.

Definition saidFragments (ms : list (Q * Conversation.LiveServerMessage))
  : list JSString :=
  flat_map (fun tm => match Conversation.outputTranscription (snd tm) with
                      | Some t => [t]
                      | None => []
                      end) ms.

(** The turns of a run of transcriber messages: for every message that
    completes a turn, the last fragment received since the turn before
    ([current] when the first turn brings none, the empty text later). *)
Fixpoint turnTexts (current : JSString) (ms : list AudioTranscriber.LiveServerMessage)
  : list JSString :=
  match ms with
  | [] => []
  | m :: rest =>
      let current := Spec.latest (AudioTranscriber.inputTranscription m) current in
      if AudioTranscriber.turnComplete m then current :: turnTexts [] rest
      else turnTexts current rest
  end.

(** The lines of a transcript: the trimmed turns that have text. *)
Definition lines (turns : list JSString) : list JSString :=
  filter truthy (map trim turns).

End Terms.

(** ** Vocabulary for the one-shot calls and the pages *)

Module ServiceTerms.
Import Browser GeminiService.
Local Open Scope string_scope.

(** The data URL of a payload, as [FileReader.readAsDataURL] and the
    service's results write it. *)
Definition dataUrl (mime data : string) : string :=
  "data:" ++ mime ++ ";base64," ++ data.

(** The text holds no comma. *)
Fixpoint noComma (s : string) : bool :=
  match s with
  | EmptyString => true
  | String c r => negb (Ascii.eqb c ","%char) && noComma r
  end.

(** The call sent exactly one request, and a rejection of that request is
    the error it threw. *)
Definition singleShot (remote : Remote) (call : Outcome) : Prop :=
  exists request,
    requests call = [request] /\
    forall e, remote request = inl e -> result call = inl e.

(** The call sent at most one request, and returned a value only after a
    request. *)
Definition atMostOnce (call : Outcome) : Prop :=
  (List.length (requests call) <= 1)%nat /\
  (requests call = [] -> exists e, result call = inl e).

(** How a click ends: with a result shown and no error, after exactly one
    request; or with an error shown, after at most one request, the result
    being cleared or (when nothing was sent) left as it was. *)
Definition settled (p p' : Pages.Page) : Prop :=
  (Pages.error p' = None /\ (exists v, Pages.output p' = Some v) /\
   exists r, Pages.sent p' = (Pages.sent p ++ [r])%list)
  \/
  ((exists e, Pages.error p' = Some e) /\
   (exists rs, Pages.sent p' = (Pages.sent p ++ rs)%list /\ (List.length rs <= 1)%nat) /\
   (Pages.output p' = None \/
    (Pages.output p' = Pages.output p /\ Pages.sent p' = Pages.sent p))).

End ServiceTerms.

(** Short names for the two session components. *)
Module Conv := Conversation.
Module Trans := AudioTranscriber.

(** * Properties *)

Import JS Browser Spec.

(** ** Little-endian bytes *)

Lemma lor_shiftl lo hi k :
  0 <= k -> 0 <= lo < 2 ^ k -> Z.lor lo (Z.shiftl hi k) = lo + 2 ^ k * hi.
Proof.
  intros Hk Hlo.
  assert (Hland : Z.land lo (Z.shiftl hi k) = 0).
  { apply Z.bits_inj'; intros n Hn.
    rewrite Z.land_spec, Z.bits_0.
    destruct (Z.lt_ge_cases n k) as [Hlt | Hge].
    - rewrite Z.shiftl_spec_low by lia. apply andb_false_r.
    - replace (Z.testbit lo n) with false; [reflexivity |].
      symmetry. destruct (Z.eq_dec lo 0) as [-> | Hnz]; [apply Z.bits_0 |].
      apply Z.bits_above_log2; [lia |].
      apply Z.log2_lt_pow2; [lia |].
      apply Z.lt_le_trans with (2 ^ k); [lia |].
      apply Z.pow_le_mono_r; lia. }
  rewrite <- Z.lxor_lor by exact Hland.
  rewrite <- Z.add_nocarry_lxor by exact Hland.
  rewrite Z.shiftl_mul_pow2 by lia. lia.
Qed.

Lemma byte_of u k : 0 <= k -> Z.land (Z.shiftr u k) 255 = (u / 2 ^ k) mod 256.
Proof.
  intros Hk. change 255 with (Z.ones 8).
  rewrite Z.land_ones by lia. now rewrite Z.shiftr_div_pow2 by lia.
Qed.

Lemma le16_read u :
  0 <= u < 65536 ->
  Z.lor (Z.land u 255) (Z.shiftl (Z.land (Z.shiftr u 8) 255) 8) = u.
Proof.
  intros Hu. rewrite <- (Z.shiftr_0_r u) at 1. rewrite !byte_of by lia.
  rewrite lor_shiftl by (try apply Z.mod_pos_bound; lia).
  change (2 ^ 0) with 1. change (2 ^ 8) with 256.
  Z.to_euclidean_division_equations; lia.
Qed.

Lemma le32_read u :
  0 <= u < 4294967296 ->
  Z.lor (Z.lor (Z.land u 255) (Z.shiftl (Z.land (Z.shiftr u 8) 255) 8))
        (Z.lor (Z.shiftl (Z.land (Z.shiftr u 16) 255) 16)
               (Z.shiftl (Z.land (Z.shiftr u 24) 255) 24)) = u.
Proof.
  intros Hu.
  replace (Z.shiftl (Z.land (Z.shiftr u 24) 255) 24)
    with (Z.shiftl (Z.shiftl (Z.land (Z.shiftr u 24) 255) 8) 16)
    by (rewrite Z.shiftl_shiftl by lia; reflexivity).
  rewrite <- Z.shiftl_lor.
  rewrite <- (Z.shiftr_0_r u) at 1. rewrite !byte_of by lia.
  rewrite !(lor_shiftl _ _ 8) by (try apply Z.mod_pos_bound; lia).
  rewrite lor_shiftl;
    change (2 ^ 0) with 1; change (2 ^ 8) with 256; change (2 ^ 16) with 65536;
    change (2 ^ 24) with 16777216; Z.to_euclidean_division_equations; lia.
Qed.

(** ** The codec *)

Section CodecFacts.
Import AudioCodec.

(** A stored 16-bit sample is read back from its two bytes. *)
Lemma int16_bytes_view v rest :
  -32768 <= v <= 32767 ->
  Int16Array_of_bytes (int16_bytes v ++ rest) =
  match Int16Array_of_bytes rest with Some r => Some (v :: r) | None => None end.
Proof.
  intros Hv. unfold int16_bytes. cbn [app Int16Array_of_bytes].
  destruct (Int16Array_of_bytes rest) as [r |]; [| reflexivity].
  f_equal. f_equal.
  change 255 with (Z.ones 8).
  rewrite !Z.land_ones by lia. rewrite Z.shiftr_div_pow2 by lia.
  change (2 ^ 8) with 256.
  rewrite (lor_shiftl _ _ 8) by (try apply Z.mod_pos_bound; lia).
  change (2 ^ 8) with 256.
  destruct (Z.leb_spec 32768 (v mod 256 + 256 * ((v / 256) mod 256)));
    Z.to_euclidean_division_equations; lia.
Qed.

Lemma Int16Array_view vs :
  Forall (fun v => -32768 <= v <= 32767) vs ->
  Int16Array_of_bytes (flat_map int16_bytes vs) = Some vs.
Proof.
  induction 1 as [| v vs Hv _ IH]; [reflexivity |].
  cbn [flat_map]. rewrite int16_bytes_view by exact Hv. now rewrite IH.
Qed.

(** Truncation leaves a remainder of the sign of the number, smaller than
    the divisor. *)
Lemma trunc_remainder n d :
  0 < d ->
  (0 <= n -> 0 <= n - d * (n ÷ d) < d) /\ (n <= 0 -> - d < n - d * (n ÷ d) <= 0).
Proof. intros Hd. Z.to_euclidean_division_equations. nia. Qed.

Lemma ToInt16_small x : -32768 <= trunc x <= 32767 -> ToInt16 x = trunc x.
Proof.
  intros H. unfold ToInt16.
  destruct (Z.leb_spec 32768 (trunc x mod 65536));
    Z.to_euclidean_division_equations; lia.
Qed.

Lemma ToInt16_range x : -32768 <= ToInt16 x <= 32767.
Proof.
  unfold ToInt16.
  destruct (Z.leb_spec 32768 (trunc x mod 65536));
    Z.to_euclidean_division_equations; lia.
Qed.

(** Below full scale the stored integer is the truncated product, and it
    decodes to within the tolerance. *)
Lemma quantize_close x :
  (-1 <= x)%Q -> (x < 1)%Q ->
  ToInt16 (x * 32768) = trunc (x * 32768) /\
  close x (inject_Z (trunc (x * 32768)) / 32768).
Proof.
  destruct x as [n d]. unfold Qle, Qlt, close. cbn [Qnum Qden]. intros Hlo Hhi.
  assert (Ht : trunc ((n # d) * 32768) = (n * 32768) ÷ Zpos d).
  { unfold trunc. cbn [Qmult Qnum Qden]. now rewrite Pos.mul_1_r. }
  pose proof (trunc_remainder (n * 32768) (Zpos d) ltac:(lia)) as [Hpos Hneg].
  split.
  - apply ToInt16_small. rewrite Ht.
    destruct (Z.le_ge_cases 0 n) as [Hn | Hn];
      [specialize (Hpos ltac:(lia)) | specialize (Hneg ltac:(lia))]; nia.
  - rewrite Ht. apply Qabs_Qle_condition.
    unfold Qle, Qminus, Qplus, Qopp, Qdiv, Qmult, Qinv, inject_Z. cbn [Qnum Qden].
    rewrite !Pos2Z.inj_mul.
    set (t := n * 32768 ÷ Z.pos d) in *.
    destruct (Z.le_ge_cases 0 n) as [Hn | Hn];
      [specialize (Hpos ltac:(lia)) | specialize (Hneg ltac:(lia))]; lia.
Qed.

(** The single channel of a mono buffer is the view, element by element. *)
Lemma decode_mono (l : list Z) :
  map (fun i => Qdiv (inject_Z (nth (i * 1 + 0)%nat l 0%Z)) 32768)
      (seq 0 (List.length l))
  = map (fun v => Qdiv (inject_Z v) 32768) l.
Proof.
  apply nth_error_ext. intros i. rewrite !nth_error_map.
  destruct (Nat.lt_ge_cases i (List.length l)) as [Hi | Hi].
  - rewrite nth_error_seq. destruct (Nat.ltb_spec i (List.length l)); [| lia].
    cbn [option_map]. rewrite (nth_error_nth' l 0 Hi). cbn [option_map].
    now rewrite Nat.mul_1_r, Nat.add_0_r.
  - rewrite (proj2 (nth_error_None _ _)) by (now rewrite length_seq).
    now rewrite (proj2 (nth_error_None _ _)) by assumption.
Qed.

(** A mono decoding is the view, scaled. *)
Lemma decodeAudioData_mono bytes rate vs :
  Int16Array_of_bytes bytes = Some vs -> vs <> [] ->
  decodeAudioData bytes rate 1
  = Some (mkAudioBuffer 1 (List.length vs) rate
            [map (fun v => Qdiv (inject_Z v) 32768) vs]).
Proof.
  intros Hv Hne. unfold decodeAudioData, decodeAudioDataOn. rewrite Hv, Nat.div_1_r.
  destruct vs as [| v vs]; [congruence |].
  cbn [Nat.eqb orb negb seq map]. now rewrite decode_mono.
Qed.

(** The round trip holds for every sequence of samples in [-1, 1). *)
Lemma roundtrip_below_full_scale xs :
  Forall (fun x => (-1 <= x)%Q /\ (x < 1)%Q) xs -> xs <> [] ->
  exists ys,
    decodeAudioData (data (createBlob xs)) 24000 1
    = Some (mkAudioBuffer 1 (List.length xs) 24000 [ys]) /\
    Forall2 close xs ys.
Proof.
  intros Hxs Hne.
  exists (map (fun x => Qdiv (inject_Z (trunc (x * 32768))) 32768) xs).
  assert (Hq : map (fun x => ToInt16 (x * 32768)) xs
               = map (fun x => trunc (x * 32768)) xs).
  { apply map_ext_in. intros x Hx. rewrite Forall_forall in Hxs.
    destruct (Hxs x Hx) as [Hlo Hhi]. apply (quantize_close x Hlo Hhi). }
  split.
  - unfold createBlob. cbn [data].
    rewrite (decodeAudioData_mono _ _ (map (fun x => ToInt16 (x * 32768)) xs)).
    + rewrite Hq, map_map, length_map. reflexivity.
    + apply Int16Array_view. rewrite Forall_map. apply Forall_forall.
      intros. apply ToInt16_range.
    + destruct xs; [congruence | discriminate].
  - clear Hq Hne. induction Hxs as [| x xs [Hlo Hhi] _ IH]; cbn [map]; constructor.
    + apply (quantize_close x Hlo Hhi).
    + exact IH.
Qed.

(** Four samples below full scale, encoded and decoded. *)
Example roundtrip_evaluated :
  data (createBlob [(1 # 2)%Q; (-1)%Q; (-1 # 3)%Q; (32767 # 32768)%Q])
  = [0; 64; 0; 128; 86; 213; 255; 127] /\
  decodeAudioData
    (data (createBlob [(1 # 2)%Q; (-1)%Q; (-1 # 3)%Q; (32767 # 32768)%Q])) 24000 1
  = Some (mkAudioBuffer 1 4 24000
            [[16384 # 32768; -32768 # 32768; -10922 # 32768; 32767 # 32768]%Q]).
Proof. split; reflexivity. Qed.

(** C1 (as the code runs it at full scale).  The sample 1.0 lies in [-1, 1];
    [createBlob] stores 32768 into a 16-bit element, which wraps to -32768,
    and [decodeAudioData] returns -1.0: the reconstructed sample is 2 away
    from the original, not within 1/32768 of it. *)
Theorem full_scale_sample_wraps :
  (-1 <= 1)%Q /\ (1 <= 1)%Q /\
  data (createBlob [1%Q]) = [0; 128] /\
  decodeAudioData (data (createBlob [1%Q])) 24000 1
  = Some (mkAudioBuffer 1 1 24000 [[(-32768 # 32768)%Q]]) /\
  ~ close 1 (-32768 # 32768).
Proof.
  repeat split; try reflexivity; try discriminate.
  unfold close. intros H. vm_compute in H. apply H. reflexivity.
Qed.

End CodecFacts.

(** ** The playable container *)

Section WavFacts.
Import Wav.

(** The blob is the header of the payload's length, then the payload. *)
Lemma createWavUrl_layout pcmData :
  createWavUrl pcmData = Some (header (Z.of_nat (List.length pcmData)) ++ pcmData).
Proof.
  unfold createWavUrl.
  set (N := Z.of_nat (List.length pcmData)).
  change (repeat 0 (44 + List.length pcmData))
    with (repeat 0 44 ++ repeat 0 (List.length pcmData)).
  set (tail := repeat 0 (List.length pcmData)).
  assert (Htail : List.length tail = List.length pcmData) by apply repeat_length.
  clearbody tail N.
  cbv [repeat writeString setUint8 setUint16 setUint32 bind].
  cbn [writeBytes Nat.add List.length Nat.leb firstn skipn app].
  unfold writeBytes. cbn [Nat.add List.length Nat.leb firstn skipn app].
  rewrite Htail, Nat.leb_refl, <- Htail, skipn_all, app_nil_r.
  reflexivity.
Qed.

Lemma ToUint32_range v : 0 <= ToUint32 v < 4294967296.
Proof. apply Z.mod_pos_bound. lia. Qed.

Lemma ToUint16_range v : 0 <= ToUint16 v < 65536.
Proof. apply Z.mod_pos_bound. lia. Qed.

(** The fields of a header, read back at their offsets. *)
Lemma header_fields dataSize rest :
  let wav := header dataSize ++ rest in
  getUint32 wav 4 = Some (ToUint32 (36 + dataSize)) /\
  getUint32 wav 40 = Some (ToUint32 dataSize) /\
  getUint32 wav 16 = Some 16 /\
  getUint16 wav 20 = Some 1 /\
  getUint16 wav 22 = Some numChannels /\
  getUint32 wav 24 = Some sampleRate /\
  getUint32 wav 28 = Some byteRate /\
  getUint16 wav 32 = Some blockAlign /\
  getUint16 wav 34 = Some bitsPerSample.
Proof.
  cbv zeta. unfold header, getUint32, getUint16.
  cbn [app skipn].
  rewrite !le32_read by apply ToUint32_range.
  rewrite !le16_read by apply ToUint16_range.
  repeat split.
Qed.



End WavFacts.

(** ** The playback scheduler *)

Section SchedulerFacts.
Import AudioCodec Conversation.

Lemma Math_max_r a b : (b <= Math_max a b)%Q.
Proof. unfold Math_max. destruct (Qlt_le_dec a b); [apply Qle_refl | assumption]. Qed.

Lemma Math_max_clock now : (0 <= now)%Q -> Math_max now 0 = now.
Proof.
  intros H. unfold Math_max. destruct (Qlt_le_dec now 0) as [Hlt | _]; [| reflexivity].
  exfalso. exact (Qlt_not_le _ _ Hlt H).
Qed.

(** The playback fields of a state. *)
Lemma onTranscription_playback m st :
  nextStartTimeRef (onTranscription m st) = nextStartTimeRef st /\
  audioSourcesRef (onTranscription m st) = audioSourcesRef st /\
  world (onTranscription m st) = world st /\
  outputAudioContextRef (onTranscription m st) = outputAudioContextRef st.
Proof.
  unfold onTranscription.
  destruct (inputTranscription m), (outputTranscription m); repeat split.
Qed.

Lemma onTurnComplete_playback m st :
  nextStartTimeRef (onTurnComplete m st) = nextStartTimeRef st /\
  audioSourcesRef (onTurnComplete m st) = audioSourcesRef st /\
  world (onTurnComplete m st) = world st /\
  outputAudioContextRef (onTurnComplete m st) = outputAudioContextRef st.
Proof.
  unfold onTurnComplete.
  destruct (turnComplete m); [| repeat split].
  destruct (truthy _ || truthy _); repeat split.
Qed.

Lemma onmessage_schedules t m st :
  interrupted m = false ->
  outputAudioContextRef st <> None ->
  let st' := onmessage t m st in
  outputAudioContextRef st' = outputAudioContextRef st /\
  nextStartTimeRef st' = watermark (nextStartTimeRef st) (arrivals [(t, m)]) /\
  exists calls,
    started (world st') = started (world st) ++ calls /\
    map timing calls = plan (nextStartTimeRef st) (arrivals [(t, m)]).
Proof.
  intros Hint Hctx. cbv zeta. unfold onmessage.
  destruct (onTurnComplete_playback m (onInterrupted m (onAudio t m (onTranscription m st))))
    as (-> & _ & -> & ->).
  unfold onInterrupted. rewrite Hint.
  destruct (onTranscription_playback m st) as (Hn & _ & Hw & Hc).
  unfold onAudio, arrivals. cbn [flat_map snd fst]. rewrite Hc, Hn, Hw.
  destruct (modelTurnAudio m) as [b |], (outputAudioContextRef st) as [ctx |];
    try congruence; cbn; rewrite ?Hc, ?Hn, ?Hw.
  - repeat split. eexists. split; reflexivity.
  - repeat split. exists []. now rewrite app_nil_r.
Qed.

Lemma plan_app next a b :
  plan next (a ++ b) = plan next a ++ plan (watermark next a) b.
Proof.
  revert next. induction a as [| [t c] a IH]; intros next; [reflexivity |].
  cbn [app plan watermark]. now rewrite IH.
Qed.

Lemma watermark_app next a b :
  watermark next (a ++ b) = watermark (watermark next a) b.
Proof.
  revert next. induction a as [| [t c] a IH]; intros next; [reflexivity |].
  cbn [app watermark]. now rewrite IH.
Qed.

Lemma arrivals_cons tm ms : arrivals (tm :: ms) = arrivals [tm] ++ arrivals ms.
Proof. unfold arrivals. cbn [flat_map]. now rewrite app_nil_r. Qed.

Lemma run_schedules ms : forall st,
  Forall (fun tm => interrupted (snd tm) = false) ms ->
  outputAudioContextRef st <> None ->
  outputAudioContextRef (run ms st) = outputAudioContextRef st /\
  nextStartTimeRef (run ms st) = watermark (nextStartTimeRef st) (arrivals ms) /\
  exists calls,
    started (world (run ms st)) = started (world st) ++ calls /\
    map timing calls = plan (nextStartTimeRef st) (arrivals ms).
Proof.
  induction ms as [| [t m] ms IH]; intros st Hms Hctx.
  - repeat split. exists []. now rewrite app_nil_r.
  - inversion Hms as [| ? ? Hm Hrest]; subst. cbn [snd] in Hm.
    destruct (onmessage_schedules t m st Hm Hctx) as (Hc1 & Hn1 & calls1 & Hs1 & Hp1).
    destruct (IH (onmessage t m st) Hrest ltac:(now rewrite Hc1))
      as (Hc2 & Hn2 & calls2 & Hs2 & Hp2).
    cbn [run]. rewrite arrivals_cons, plan_app, watermark_app.
    rewrite Hc2, Hc1, Hn2, Hn1. repeat split.
    exists (calls1 ++ calls2). rewrite Hs2, Hs1, <- app_assoc, map_app, Hp1, Hp2, Hn1.
    split; reflexivity.
Qed.

Lemma plan_consecutive chunks : forall next i s1 b1 s2 b2,
  nth_error (plan next chunks) i = Some (s1, b1) ->
  nth_error (plan next chunks) (S i) = Some (s2, b2) ->
  (s1 + duration b1 <= s2)%Q.
Proof.
  induction chunks as [| [t b] rest IH]; intros next i s1 b1 s2 b2 H1 H2.
  - destruct i; discriminate.
  - cbn [plan] in H1, H2. destruct i as [| i].
    + cbn [nth_error] in H1, H2. injection H1 as <- <-.
      destruct rest as [| [t' b'] rest']; [discriminate |].
      cbn [plan nth_error] in H2. injection H2 as <- _. apply Math_max_r.
    + cbn [nth_error] in H1, H2. exact (IH _ i _ _ _ _ H1 H2).
Qed.

Lemma onmessage_watermark t m st b ctx :
  modelTurnAudio m = Some b -> outputAudioContextRef st = Some ctx ->
  interrupted m = false ->
  nextStartTimeRef (onmessage t m st)
  = (Math_max t (nextStartTimeRef st) + duration b)%Q.
Proof.
  intros Ha Hc Hi.
  destruct (onmessage_schedules t m st Hi ltac:(congruence)) as (_ & -> & _).
  unfold arrivals. cbn [flat_map snd fst]. now rewrite Ha.
Qed.

Lemma In_Set_add s h l : In s l -> In s (Set_add h l).
Proof.
  intros H. unfold Set_add. destruct (existsb (Nat.eqb h) l); [assumption |].
  apply in_or_app. now left.
Qed.

Lemma onAudio_keeps_sources t m st s :
  In s (audioSourcesRef st) -> In s (audioSourcesRef (onAudio t m st)).
Proof.
  intros H. unfold onAudio.
  destruct (modelTurnAudio m), (outputAudioContextRef st); try assumption.
  cbn. now apply In_Set_add.
Qed.

Lemma onmessage_context t m st :
  outputAudioContextRef (onmessage t m st) = outputAudioContextRef st.
Proof.
  unfold onmessage.
  destruct (onTurnComplete_playback m (onInterrupted m (onAudio t m (onTranscription m st))))
    as (_ & _ & _ & ->).
  destruct (onTranscription_playback m st) as (_ & _ & _ & Hc).
  unfold onInterrupted, onAudio. rewrite Hc.
  destruct (interrupted m), (modelTurnAudio m), (outputAudioContextRef st);
    cbn; now rewrite ?Hc.
Qed.

Lemma run_context ms : forall st,
  outputAudioContextRef (run ms st) = outputAudioContextRef st.
Proof.
  induction ms as [| [t m] ms IH]; intros st; [reflexivity |].
  cbn [run]. now rewrite IH, onmessage_context.
Qed.

Lemma onmessage_no_audio_watermark t m st :
  modelTurnAudio m = None -> nextStartTimeRef st = 0%Q ->
  nextStartTimeRef (onmessage t m st) = 0%Q.
Proof.
  intros Ha H0. unfold onmessage.
  destruct (onTurnComplete_playback m (onInterrupted m (onAudio t m (onTranscription m st))))
    as (-> & _).
  unfold onInterrupted, onAudio. rewrite Ha.
  destruct (onTranscription_playback m st) as (Hn & _).
  destruct (interrupted m); cbn; [reflexivity | now rewrite Hn].
Qed.

Lemma run_no_audio_watermark ms : forall st,
  Forall (fun tm => modelTurnAudio (snd tm) = None) ms ->
  nextStartTimeRef st = 0%Q -> nextStartTimeRef (run ms st) = 0%Q.
Proof.
  induction ms as [| [t m] ms IH]; intros st Hms H0; [assumption |].
  inversion Hms; subst. cbn [run]. apply IH; [assumption |].
  now apply onmessage_no_audio_watermark.
Qed.

Lemma onmessage_start t m st b ctx :
  modelTurnAudio m = Some b -> outputAudioContextRef st = Some ctx ->
  started (world (onmessage t m st))
  = started (world st)
    ++ [mkStartCall (nextHandle (world st)) (Math_max t (nextStartTimeRef st)) b].
Proof.
  intros Ha Hc. unfold onmessage.
  destruct (onTurnComplete_playback m (onInterrupted m (onAudio t m (onTranscription m st))))
    as (_ & _ & -> & _).
  destruct (onTranscription_playback m st) as (Hn & _ & Hw & Hc').
  unfold onInterrupted, onAudio. rewrite Ha, Hc', Hc, Hn, Hw.
  destruct (interrupted m); reflexivity.
Qed.

(** C2.  While the output context is held: every chunk received is started
    at [max(currentTime, nextStartTime)], and unless the same message is
    flagged [interrupted] the watermark becomes that start time plus the
    chunk's duration.  Over any run of messages without an interruption the
    start calls made are therefore those of [plan], the watermark ends as
    [watermark] says, and each chunk starts no earlier than the end of the
    chunk received before it. *)
Theorem playback_ordering st :
  outputAudioContextRef st <> None ->
  (forall t m b,
     modelTurnAudio m = Some b ->
     let start := Math_max t (nextStartTimeRef st) in
     started (world (onmessage t m st))
     = started (world st) ++ [mkStartCall (nextHandle (world st)) start b] /\
     (interrupted m = false ->
      nextStartTimeRef (onmessage t m st) = (start + duration b)%Q)) /\
  (forall ms,
     Forall (fun tm => interrupted (snd tm) = false) ms ->
     exists calls,
       started (world (run ms st)) = started (world st) ++ calls /\
       map timing calls = plan (nextStartTimeRef st) (arrivals ms) /\
       nextStartTimeRef (run ms st) = watermark (nextStartTimeRef st) (arrivals ms) /\
       forall i c1 c2,
         nth_error calls i = Some c1 -> nth_error calls (S i) = Some c2 ->
         (startTime c1 + duration (buffer c1) <= startTime c2)%Q).
Proof.
  intros Hctx. split.
  - intros t m b Ha. cbv zeta.
    destruct (outputAudioContextRef st) as [ctx |] eqn:Hc; [| congruence].
    split; [now apply (onmessage_start t m st b ctx) |].
    now apply (onmessage_watermark t m st b ctx).
  - intros ms Hms.
    destruct (run_schedules ms st Hms Hctx) as (_ & Hn & calls & Hs & Hp).
    exists calls. repeat split; try assumption.
    intros i c1 c2 H1 H2.
    apply (plan_consecutive (arrivals ms) (nextStartTimeRef st) i
             (startTime c1) (buffer c1) (startTime c2) (buffer c2));
      rewrite <- Hp, nth_error_map; [rewrite H1 | rewrite H2]; reflexivity.
Qed.

(** C3.  A message flagged [interrupted] stops every source of the scheduled
    set (the one it may itself have scheduled included), empties the set and
    resets the watermark to 0; whatever messages without audio follow, the
    next chunk is started at the clock reading of its arrival. *)
Theorem interruption_resets_timeline st t m :
  interrupted m = true ->
  let st1 := onmessage t m st in
  (forall s, In s (audioSourcesRef st) -> In s (stopped (world st1))) /\
  stopped (world st1)
  = stopped (world st) ++ audioSourcesRef (onAudio t m (onTranscription m st)) /\
  audioSourcesRef st1 = [] /\
  nextStartTimeRef st1 = 0%Q /\
  forall ms t' m' b ctx,
    Forall (fun tm => modelTurnAudio (snd tm) = None) ms ->
    modelTurnAudio m' = Some b ->
    outputAudioContextRef st = Some ctx ->
    (0 <= t')%Q ->
    let st2 := run ms st1 in
    started (world (onmessage t' m' st2))
    = started (world st2) ++ [mkStartCall (nextHandle (world st2)) t' b].
Proof.
  intros Hint. cbv zeta.
  assert (Hstop : stopped (world (onmessage t m st))
            = stopped (world st) ++ audioSourcesRef (onAudio t m (onTranscription m st))).
  { unfold onmessage.
    destruct (onTurnComplete_playback m (onInterrupted m (onAudio t m (onTranscription m st))))
      as (_ & _ & -> & _).
    unfold onInterrupted. rewrite Hint. cbn. f_equal.
    destruct (onTranscription_playback m st) as (_ & _ & Hw & Hc).
    unfold onAudio. destruct (modelTurnAudio m), (outputAudioContextRef _); cbn; now rewrite Hw. }
  assert (Hnext : nextStartTimeRef (onmessage t m st) = 0%Q).
  { unfold onmessage.
    destruct (onTurnComplete_playback m (onInterrupted m (onAudio t m (onTranscription m st))))
      as (-> & _).
    unfold onInterrupted. now rewrite Hint. }
  repeat split.
  - intros s Hs. rewrite Hstop. apply in_or_app. right.
    apply onAudio_keeps_sources.
    now destruct (onTranscription_playback m st) as (_ & -> & _).
  - exact Hstop.
  - unfold onmessage.
    destruct (onTurnComplete_playback m (onInterrupted m (onAudio t m (onTranscription m st))))
      as (_ & -> & _).
    unfold onInterrupted. now rewrite Hint.
  - exact Hnext.
  - intros ms t' m' b ctx Hms Ha Hc Ht'.
    rewrite (onmessage_start t' m' _ b ctx Ha)
      by (now rewrite run_context, onmessage_context).
    rewrite (run_no_audio_watermark ms _ Hms Hnext).
    now rewrite Math_max_clock.
Qed.

End SchedulerFacts.

(** Three chunks on an open conversation: started at 0 s, 10 ms and 1 s. *)
Lemma playback_ordering_witness :
  exists calls,
    started (Conv.world (Conv.run Scenario.three_chunks Scenario.listening))
    = started (Conv.world Scenario.listening) ++ calls /\
    map timing calls
    = plan (Conv.nextStartTimeRef Scenario.listening) (arrivals Scenario.three_chunks) /\
    Conv.nextStartTimeRef (Conv.run Scenario.three_chunks Scenario.listening)
    = watermark (Conv.nextStartTimeRef Scenario.listening)
        (arrivals Scenario.three_chunks) /\
    forall i c1 c2,
      nth_error calls i = Some c1 -> nth_error calls (S i) = Some c2 ->
      (startTime c1 + AudioCodec.duration (buffer c1) <= startTime c2)%Q.
Proof.
  destruct (playback_ordering Scenario.listening ltac:(vm_compute; discriminate))
    as [_ Hrun].
  apply Hrun. repeat constructor.
Defined.

(** The same run, evaluated: the chunk that arrives at 5 ms waits for the
    end of the first one at 10 ms, the chunk that arrives at 1 s starts on
    arrival. *)
Example three_chunks_evaluated :
  map startTime (started (Conv.world (Conv.run Scenario.three_chunks Scenario.listening)))
  = [0; 240 # 24000; 1]%Q /\
  Qeq (Conv.nextStartTimeRef (Conv.run Scenario.three_chunks Scenario.listening))
      (101 # 100).
Proof. vm_compute. split; reflexivity. Qed.

(** An interruption while two chunks are scheduled, a transcript fragment,
    then a chunk arriving at 2 s: it starts at 2 s. *)
Lemma interruption_resets_timeline_witness :
  let st1 := Conv.onmessage (1 # 100) Scenario.interruption Scenario.two_playing in
  let st2 := Conv.run Scenario.small_talk st1 in
  Conv.audioSourcesRef st1 = [] /\
  Conv.nextStartTimeRef st1 = 0%Q /\
  started (Conv.world (Conv.onmessage 2 (Scenario.audio 240) st2))
  = started (Conv.world st2)
    ++ [mkStartCall (nextHandle (Conv.world st2)) 2 (Scenario.chunk 240)].
Proof.
  cbv zeta.
  destruct (interruption_resets_timeline Scenario.two_playing (1 # 100)
              Scenario.interruption eq_refl)
    as (_ & _ & Hset & Hnext & Hthen).
  split; [exact Hset |].
  split; [exact Hnext |].
  apply (Hthen Scenario.small_talk 2%Q (Scenario.audio 240) (Scenario.chunk 240) 2%nat).
  - repeat constructor.
  - reflexivity.
  - vm_compute. reflexivity.
  - discriminate.
Defined.

(** The same run, evaluated: the two scheduled sources are stopped, and the
    chunk that arrives at 15 ms is started at 15 ms although the watermark
    had reached 20 ms. *)
Example interruption_evaluated :
  let st := Scenario.two_playing in
  let st1 := Conv.onmessage (1 # 100) Scenario.interruption st in
  Conv.audioSourcesRef st = [5; 6]%nat /\
  Qeq (Conv.nextStartTimeRef st) (2 # 100) /\
  stopped (Conv.world st1) = [5; 6]%nat /\
  map startTime
    (started (Conv.world (Conv.onmessage (3 # 200) (Scenario.audio 240) st1)))
  = [0; 240 # 24000; 3 # 200]%Q.
Proof. vm_compute. repeat split; reflexivity. Qed.

(** ** The transcript aggregator *)

Section AggregatorFacts.

Lemma truthy_nonempty s : truthy s = true <-> s <> [].
Proof. destruct s; cbn; split; congruence. Qed.

(** What the four blocks of [onmessage] do to the buffers and the log. *)
Lemma onTranscription_texts m st :
  Conv.currentInputTextRef (Conv.onTranscription m st)
  = latest (Conv.inputTranscription m) (Conv.currentInputTextRef st) /\
  Conv.currentOutputTextRef (Conv.onTranscription m st)
  = latest (Conv.outputTranscription m) (Conv.currentOutputTextRef st) /\
  Conv.conversation (Conv.onTranscription m st) = Conv.conversation st.
Proof.
  unfold Conv.onTranscription.
  destruct (Conv.inputTranscription m), (Conv.outputTranscription m); repeat split.
Qed.

Lemma onAudio_texts t m st :
  Conv.currentInputTextRef (Conv.onAudio t m st) = Conv.currentInputTextRef st /\
  Conv.currentOutputTextRef (Conv.onAudio t m st) = Conv.currentOutputTextRef st /\
  Conv.conversation (Conv.onAudio t m st) = Conv.conversation st.
Proof.
  unfold Conv.onAudio.
  destruct (Conv.modelTurnAudio m), (Conv.outputAudioContextRef st); repeat split.
Qed.

Lemma onInterrupted_texts m st :
  Conv.currentInputTextRef (Conv.onInterrupted m st) = Conv.currentInputTextRef st /\
  Conv.currentOutputTextRef (Conv.onInterrupted m st) = Conv.currentOutputTextRef st /\
  Conv.conversation (Conv.onInterrupted m st) = Conv.conversation st.
Proof. unfold Conv.onInterrupted. destruct (Conv.interrupted m); repeat split. Qed.

(** The log after a message: a turn is appended exactly when the message
    completes a turn and one of the trimmed buffers has text. *)
Lemma onmessage_log t m st :
  let u := trim (latest (Conv.inputTranscription m) (Conv.currentInputTextRef st)) in
  let v := trim (latest (Conv.outputTranscription m) (Conv.currentOutputTextRef st)) in
  Conv.conversation (Conv.onmessage t m st)
  = if Conv.turnComplete m && (truthy u || truthy v)
    then Conv.conversation st ++ [Conv.mkEntry Conv.user u; Conv.mkEntry Conv.model v]
    else Conv.conversation st.
Proof.
  cbv zeta. unfold Conv.onmessage.
  destruct (onInterrupted_texts m (Conv.onAudio t m (Conv.onTranscription m st)))
    as (Hi & Ho & Hc).
  destruct (onAudio_texts t m (Conv.onTranscription m st)) as (Hi' & Ho' & Hc').
  destruct (onTranscription_texts m st) as (Hi'' & Ho'' & Hc'').
  unfold Conv.onTurnComplete. rewrite Hi, Ho, Hi', Ho', Hi'', Ho''.
  cbn [Conv.text].
  destruct (Conv.turnComplete m); cbn [andb]; [| congruence].
  destruct (truthy _ || truthy _); cbn; congruence.
Qed.

Lemma onmessage_buffers t m st :
  Conv.turnComplete m = true ->
  Conv.currentInputTextRef (Conv.onmessage t m st) = [] /\
  Conv.currentOutputTextRef (Conv.onmessage t m st) = [].
Proof.
  intros H. unfold Conv.onmessage, Conv.onTurnComplete. rewrite H. split; reflexivity.
Qed.

(** C4.  At a turn-complete message both partial buffers (as they stand
    once the fragments of the message itself are stored) are trimmed; if
    both are empty the log is unchanged; if one has text, the user entry and
    the model entry are appended, in that order; then both buffers are
    empty.  In the transcriber the trimmed turn text is appended to the
    transcript (after a line feed when the transcript has text) when it is
    not empty, and the turn buffer and the interim transcript are emptied. *)
Theorem turn_commit_rule :
  (forall t m st,
     Conv.turnComplete m = true ->
     let userText :=
       trim (latest (Conv.inputTranscription m) (Conv.currentInputTextRef st)) in
     let modelText :=
       trim (latest (Conv.outputTranscription m) (Conv.currentOutputTextRef st)) in
     let st' := Conv.onmessage t m st in
     (userText = [] /\ modelText = [] -> Conv.conversation st' = Conv.conversation st) /\
     (userText <> [] \/ modelText <> [] ->
      Conv.conversation st'
      = Conv.conversation st
        ++ [Conv.mkEntry Conv.user userText; Conv.mkEntry Conv.model modelText]) /\
     Conv.currentInputTextRef st' = [] /\ Conv.currentOutputTextRef st' = [])
  /\
  (forall m st,
     Trans.turnComplete m = true ->
     let turnText :=
       trim (latest (Trans.inputTranscription m) (Trans.currentTurnTextRef st)) in
     let st' := Trans.onmessage m st in
     (turnText = [] -> Trans.transcription st' = Trans.transcription st) /\
     (turnText <> [] ->
      Trans.transcription st'
      = Trans.transcription st
        ++ (if truthy (Trans.transcription st) then [10%N] else []) ++ turnText) /\
     Trans.currentTurnTextRef st' = [] /\ Trans.interimTranscript st' = []).
Proof.
  split.
  - intros t m st Htc. cbv zeta.
    rewrite onmessage_log, Htc. cbn [andb].
    destruct (onmessage_buffers t m st Htc) as [-> ->].
    set (u := trim _). set (v := trim _).
    repeat split.
    + intros [-> ->]. reflexivity.
    + intros H. replace (truthy u || truthy v) with true; [reflexivity |].
      symmetry. apply orb_true_iff.
      destruct H; [left | right]; now apply truthy_nonempty.
  - intros m st Htc. cbv zeta. unfold Trans.onmessage. rewrite Htc.
    destruct (Trans.inputTranscription m) as [p |]; cbn -[trim];
      (set (x := trim _); repeat split;
       [ intros ->; reflexivity
       | intros H; apply truthy_nonempty in H; now rewrite H ]).
Qed.

(** A turn where only the user spoke, and a turn of the transcriber. *)
Lemma turn_commit_rule_witness :
  (let st' := Conv.onmessage 0 Scenario.turnEnd Scenario.user_spoke in
   Conv.conversation st'
   = Conv.conversation Scenario.user_spoke
     ++ [Conv.mkEntry Conv.user
           (trim (latest (Conv.inputTranscription Scenario.turnEnd)
                    (Conv.currentInputTextRef Scenario.user_spoke)));
         Conv.mkEntry Conv.model
           (trim (latest (Conv.outputTranscription Scenario.turnEnd)
                    (Conv.currentOutputTextRef Scenario.user_spoke)))] /\
   Conv.currentInputTextRef st' = [] /\ Conv.currentOutputTextRef st' = [])
  /\
  (let st' := Trans.onmessage Scenario.dictated Scenario.recording in
   Trans.currentTurnTextRef st' = [] /\ Trans.interimTranscript st' = []).
Proof.
  destruct turn_commit_rule as [Hconv Htrans]. split.
  - destruct (Hconv 0%Q Scenario.turnEnd Scenario.user_spoke eq_refl)
      as (_ & Happ & Hin & Hout).
    split; [| split; [exact Hin | exact Hout]].
    apply Happ. left. vm_compute. discriminate.
  - destruct (Htrans Scenario.dictated Scenario.recording eq_refl)
      as (_ & _ & Hturn & Hinterim).
    split; [exact Hturn | exact Hinterim].
Defined.

(** The log is made of well-formed turns after a further turn. *)
Lemma turns_ok_app : forall n log u v,
  (List.length log <= n)%nat ->
  turns_ok log = true -> truthy u || truthy v = true ->
  turns_ok (log ++ [Conv.mkEntry Conv.user u; Conv.mkEntry Conv.model v]) = true.
Proof.
  induction n as [| n IH]; intros log u v Hlen Hok Huv.
  - destruct log; [| cbn in Hlen; lia]. cbn. now rewrite Huv.
  - destruct log as [| [[] a] [| [[] b] rest]]; try discriminate.
    + cbn. now rewrite Huv.
    + cbn [turns_ok app] in Hok |- *. apply andb_true_iff in Hok as [Hab Hrest].
      rewrite Hab. cbn [andb]. apply IH; [cbn in Hlen; lia | assumption | assumption].
Qed.

Lemma handleStart_log env st :
  Conv.conversation (Conv.handleStart env st) = Conv.conversation st \/
  Conv.conversation (Conv.handleStart env st) = [].
Proof.
  unfold Conv.handleStart, Conv.handleStartOf.
  destruct (negb _); [now left |]. right.
  destruct (keyMissing env); [reflexivity |].
  destruct (getUserMedia env); reflexivity.
Qed.

Lemma step_log st e :
  turns_ok (Conv.conversation st) = true ->
  turns_ok (Conv.conversation (Conv.step st e)) = true.
Proof.
  intros Hok. destruct e as [env | | | t m | s |]; cbn [Conv.step].
  - destruct (handleStart_log env st) as [-> | ->]; [assumption | reflexivity].
  - unfold Conv.handleStop. now destruct (Conv.Status_eqb _ _).
  - unfold Conv.onopen. cbn.
    now destruct (Conv.inputAudioContextRef st), (Conv.mediaStreamRef st).
  - rewrite onmessage_log.
    destruct (Conv.turnComplete m); cbn [andb]; [| assumption].
    destruct (truthy _ || truthy _) eqn:Huv; [| assumption].
    now apply (turns_ok_app (List.length (Conv.conversation st))).
  - assumption.
  - assumption.
Qed.

Lemma runEvents_log es : forall st,
  turns_ok (Conv.conversation st) = true ->
  turns_ok (Conv.conversation (Conv.runEvents es st)) = true.
Proof.
  induction es as [| e es IH]; intros st Hok; [assumption |].
  cbn [Conv.runEvents fold_left]. apply IH. now apply step_log.
Qed.

(** C5 (as stated) fails in the two-way conversation: a turn in which only
    the user spoke appends a model entry whose text is empty. *)
Lemma empty_entry_appended :
  Conv.conversation
    (Conv.run [(0%Q, Scenario.heard "hi"); (0%Q, Scenario.turnEnd)] Scenario.listening)
  = [Conv.mkEntry Conv.user (str "hi"); Conv.mkEntry Conv.model []].
Proof. reflexivity. Qed.

(** C5 (amended).  Whatever the sequence of events (starts, stops, session
    callbacks, messages), the conversation log is a sequence of turns, each
    a user entry followed by a model entry of which at least one has text:
    no turn is persisted whose two texts are both empty, and an entry with
    empty text is only ever appended beside a non-empty one.  In the
    transcriber every message leaves the transcript as it is or appends a
    non-empty text to it. *)
Theorem only_nonempty_turns_persisted :
  (forall es, turns_ok (Conv.conversation (Conv.runEvents es Conv.initialState)) = true)
  /\
  (forall m st,
     Trans.transcription (Trans.onmessage m st) = Trans.transcription st \/
     exists turnText,
       turnText <> [] /\
       Trans.transcription (Trans.onmessage m st)
       = Trans.transcription st
         ++ (if truthy (Trans.transcription st) then [10%N] else []) ++ turnText).
Proof.
  split.
  - intros es. now apply runEvents_log.
  - intros m st. unfold Trans.onmessage.
    destruct (Trans.turnComplete m);
      [| left; now destruct (Trans.inputTranscription m)].
    destruct (Trans.inputTranscription m) as [p |]; cbn -[trim];
      (match goal with
       | |- context [truthy (trim ?b)] =>
           destruct (truthy (trim b)) eqn:Hx;
             [ right; exists (trim b); split;
               [now apply truthy_nonempty | reflexivity]
             | now left ]
       end).
Qed.

End AggregatorFacts.

(** ** The session controller *)

Section ControllerFacts.

Lemma Status_eqb_idle s : Conv.Status_eqb s Conv.idle = true <-> s = Conv.idle.
Proof. destruct s; cbn; split; congruence. Qed.

(** [start()] outside [idle] changes nothing. *)
Lemma handleStart_busy env st :
  Conv.status st <> Conv.idle -> Conv.handleStart env st = st.
Proof.
  intros H. unfold Conv.handleStart, Conv.handleStartOf.
  destruct (Conv.Status_eqb (Conv.status st) Conv.idle) eqn:E; [| reflexivity].
  now apply Status_eqb_idle in E.
Qed.

(** A start that succeeds leaves the component connecting, with one more
    session requested. *)
Lemma handleStart_opens env st :
  Conv.status st = Conv.idle -> keyMissing env = false -> getUserMedia env = None ->
  Conv.status (Conv.handleStart env st) = Conv.connecting /\
  sessions (Conv.world (Conv.handleStart env st))
  = sessions (Conv.world st) ++ [(3 + nextHandle (Conv.world st))%nat].
Proof.
  intros Hidle Hkey Hmic. unfold Conv.handleStart, Conv.handleStartOf.
  rewrite Hidle, Hkey, Hmic. cbn. split; reflexivity.
Qed.

Lemma handleStartRecording_opens env st :
  Trans.isRecording st = false -> keyMissing env = false -> getUserMedia env = None ->
  Trans.isRecording (Trans.handleStartRecording env st) = true /\
  sessions (Trans.world (Trans.handleStartRecording env st))
  = sessions (Trans.world st) ++ [(2 + nextHandle (Trans.world st))%nat].
Proof.
  intros Hidle Hkey Hmic. unfold Trans.handleStartRecording, Trans.handleStartRecordingOf.
  rewrite Hidle, Hkey, Hmic. cbn. split; reflexivity.
Qed.

(** Between renders the guard holds: outside [idle] (while recording, for
    the transcriber) the start button's closure returns the state unchanged,
    so a start that succeeds, a render, and a second start leave exactly one
    more session than before. *)
Lemma rerendered_start_ignored :
  (forall env st, Conv.status st <> Conv.idle -> Conv.handleStart env st = st) /\
  (forall env st, Trans.isRecording st = true -> Trans.handleStartRecording env st = st) /\
  (forall env env' st,
     Conv.status st = Conv.idle -> keyMissing env = false -> getUserMedia env = None ->
     let twice := Conv.handleStart env' (Conv.handleStart env st) in
     twice = Conv.handleStart env st /\
     List.length (sessions (Conv.world twice))
     = S (List.length (sessions (Conv.world st)))) /\
  (forall env env' st,
     Trans.isRecording st = false -> keyMissing env = false -> getUserMedia env = None ->
     let twice := Trans.handleStartRecording env' (Trans.handleStartRecording env st) in
     twice = Trans.handleStartRecording env st /\
     List.length (sessions (Trans.world twice))
     = S (List.length (sessions (Trans.world st)))).
Proof.
  split; [exact handleStart_busy |].
  split; [intros env st H; unfold Trans.handleStartRecording, Trans.handleStartRecordingOf;
          now rewrite H |].
  split.
  - intros env env' st Hidle Hkey Hmic. cbv zeta.
    destruct (handleStart_opens env st Hidle Hkey Hmic) as [Hst Hs].
    rewrite handleStart_busy by (rewrite Hst; discriminate).
    split; [reflexivity |]. rewrite Hs, length_app. cbn. lia.
  - intros env env' st Hidle Hkey Hmic. cbv zeta.
    destruct (handleStartRecording_opens env st Hidle Hkey Hmic) as [Hst Hs].
    assert (Hbusy : Trans.handleStartRecording env' (Trans.handleStartRecording env st)
                    = Trans.handleStartRecording env st).
    { unfold Trans.handleStartRecording at 1. unfold Trans.handleStartRecordingOf at 1.
      now rewrite Hst. }
    rewrite Hbusy. split; [reflexivity |]. rewrite Hs, length_app. cbn. lia.
Qed.

(** Two starts with a render in between, on a fresh conversation and on a
    fresh transcriber: one session each. *)
Lemma rerendered_start_ignored_witness :
  (let twice := Conv.handleStart Scenario.noKey
                  (Conv.handleStart Scenario.env Conv.initialState) in
   twice = Conv.handleStart Scenario.env Conv.initialState /\
   List.length (sessions (Conv.world twice))
   = S (List.length (sessions (Conv.world Conv.initialState)))) /\
  (let twice := Trans.handleStartRecording Scenario.env
                  (Trans.handleStartRecording Scenario.env Trans.initialState) in
   twice = Trans.handleStartRecording Scenario.env Trans.initialState /\
   List.length (sessions (Trans.world twice))
   = S (List.length (sessions (Trans.world Trans.initialState)))).
Proof.
  destruct rerendered_start_ignored as (_ & _ & Hconv & Htrans). split.
  - apply (Hconv Scenario.env Scenario.noKey Conv.initialState); reflexivity.
  - apply (Htrans Scenario.env Scenario.env Trans.initialState); reflexivity.
Defined.






(** What the former session had left behind in that witness. *)
Example used_session_state :
  Conv.status Scenario.used = Conv.idle /\
  Conv.conversation Scenario.used
  = [Conv.mkEntry Conv.user (str "hi"); Conv.mkEntry Conv.model []] /\
  Conv.currentInputTextRef Scenario.used = str "again" /\
  Qeq (Conv.nextStartTimeRef Scenario.used) (1 # 100) /\
  Trans.transcription Scenario.dictation_done = str "take a note".
Proof. vm_compute. repeat split; reflexivity. Qed.

(** C6 (as the code runs it).  [onclose] only sets the status: the world and
    every ref are as before, and since the status is now idle [handleStop]
    does nothing either.  On the open conversation the microphone stream 0
    keeps capturing, the tap 4 stays connected and the audio contexts 1 and
    2 stay open, whereas [handleStop] on the same state releases them all.
    The transcriber's [onclose] changes nothing at all: it stays recording. *)
Theorem onclose_skips_teardown :
  (forall st,
     Conv.status (Conv.onclose st) = Conv.idle /\
     Conv.world (Conv.onclose st) = Conv.world st /\
     Conv.mediaStreamRef (Conv.onclose st) = Conv.mediaStreamRef st /\
     Conv.scriptProcessorRef (Conv.onclose st) = Conv.scriptProcessorRef st /\
     Conv.inputAudioContextRef (Conv.onclose st) = Conv.inputAudioContextRef st /\
     Conv.outputAudioContextRef (Conv.onclose st) = Conv.outputAudioContextRef st /\
     Conv.handleStop (Conv.onclose st) = Conv.onclose st) /\
  (let st := Conv.onclose Scenario.listening in
   Conv.status st = Conv.idle /\
   Conv.mediaStreamRef st = Some 0%nat /\
   capturing (Conv.world st) = [0%nat] /\
   taps (Conv.world st) = [4%nat] /\
   contexts (Conv.world st) = [1%nat; 2%nat] /\
   ~ released (Conv.world st)) /\
  (let st := Conv.handleStop Scenario.listening in
   Conv.status st = Conv.idle /\ released (Conv.world st)) /\
  (forall st, Trans.onclose st = st) /\
  Trans.isRecording (Trans.onclose Scenario.recording) = true /\
  capturing (Trans.world (Trans.onclose Scenario.recording)) = [0%nat].
Proof.
  split; [intros st; repeat split |].
  split.
  - cbv zeta. repeat split; try reflexivity.
    intros (H & _). discriminate H.
  - split; [| repeat split]. cbv zeta. split; [reflexivity |].
    unfold released. repeat split.
Qed.

End ControllerFacts.

(** ** The credential *)

Section CredentialFacts.
Import GeminiService.
Local Open Scope string_scope.

(** Every one-shot call throws its configuration error before it sends
    anything. *)
Lemma calls_fail_fast env remote :
  keyMissing env = true ->
  (forall image,
     extractPromptFromImage env remote image
     = threw "API_KEY environment variable not set.") /\
  (forall image w h, generativeResize env remote image w h = threw "API_KEY not set.") /\
  (forall image prompt, editImage env remote image prompt = threw "API_KEY not set.") /\
  (forall face target, faceSwap env remote face target = threw "API_KEY not set.") /\
  (forall prompt ratio,
     generateImageFromText env remote prompt ratio = threw "API_KEY not set.") /\
  (forall content voice language,
     generateSpeech env remote content voice language = threw "API_KEY not set.") /\
  (forall image, upscaleImage env remote image = threw "API_KEY not set.") /\
  (forall subject scene style prompt,
     generateImageFromElements env remote subject scene style prompt
     = threw "API_KEY not set.") /\
  (forall original style prompt,
     restyleImage env remote original style prompt = threw "API_KEY not set.") /\
  (forall person garment,
     virtualTryOn env remote person garment = threw "API_KEY not set.") /\
  (forall person garments,
     virtualTryOnMultiple env remote person garments = threw "API_KEY not set.").
Proof.
  intros Hkey.
  unfold extractPromptFromImage, generativeResize, editImage, faceSwap,
    generateImageFromText, generateSpeech, upscaleImage, generateImageFromElements,
    restyleImage, virtualTryOn, virtualTryOnMultiple.
  rewrite Hkey. repeat split.
Qed.

Lemma attempt_threw prefix logged message p :
  alerts (prefix ++ message) p (Pages.attempt prefix logged (threw message) p).
Proof. unfold alerts, Pages.attempt. cbn. now rewrite app_nil_r. Qed.

Lemma alerts_from message p0 p p' :
  Pages.sent p = Pages.sent p0 -> alerts message p p' -> alerts message p0 p'.
Proof. intros Hs [He Hsent]. split; [assumption | congruence]. Qed.

(** C8 (as stated) fails on the voice preview: without a credential the
    call fails before any request, but the page shows no error; the failure
    is only written to the console. *)
Lemma preview_failure_not_shown :
  let p := Pages.TTS.handlePreview Scenario.noKey Scenario.offline Scenario.decoder
             None false "Kore" Pages.blank in
  Pages.error p = None /\
  Pages.console p = ["Preview failed: API_KEY not set."] /\
  Pages.sent p = [].
Proof. repeat split. Qed.

(** C8 (amended).  When the credential is absent (undefined or empty):
    every one-shot generation call throws an explicit error and sends no
    request; each session start ends idle with the error shown, having
    acquired nothing (no microphone stream, no audio context, no session);
    and every page handler that reaches a generation call (the face swap
    page and the try-on page with a catalogue model included) shows the
    error and sends nothing, except the voice preview, which leaves the error
    line as it was and only logs the failure. *)
Theorem missing_credential_fails_fast env remote :
  keyMissing env = true ->
  (* the one-shot calls *)
  ((forall image,
      extractPromptFromImage env remote image
      = threw "API_KEY environment variable not set.") /\
   (forall image w h, generativeResize env remote image w h = threw "API_KEY not set.") /\
   (forall image prompt, editImage env remote image prompt = threw "API_KEY not set.") /\
   (forall face target, faceSwap env remote face target = threw "API_KEY not set.") /\
   (forall prompt ratio,
      generateImageFromText env remote prompt ratio = threw "API_KEY not set.") /\
   (forall content voice language,
      generateSpeech env remote content voice language = threw "API_KEY not set.") /\
   (forall image, upscaleImage env remote image = threw "API_KEY not set.") /\
   (forall subject scene style prompt,
      generateImageFromElements env remote subject scene style prompt
      = threw "API_KEY not set.") /\
   (forall original style prompt,
      restyleImage env remote original style prompt = threw "API_KEY not set.") /\
   (forall person garment,
      virtualTryOn env remote person garment = threw "API_KEY not set.") /\
   (forall person garments,
      virtualTryOnMultiple env remote person garments = threw "API_KEY not set.")) /\
  (* the session starts *)
  (forall st,
     Conv.status st = Conv.idle ->
     let st' := Conv.handleStart env st in
     Conv.error st'
     = Some "Failed to start conversation: API_KEY environment variable not set." /\
     Conv.status st' = Conv.idle /\
     nextHandle (Conv.world st') = nextHandle (Conv.world st) /\
     Conv.world st' = Conv.world (Conv.cleanup st)) /\
  (forall st,
     Trans.isRecording st = false ->
     let st' := Trans.handleStartRecording env st in
     Trans.error st'
     = Some "Failed to start recording: API_KEY environment variable not set." /\
     Trans.isRecording st' = false /\
     nextHandle (Trans.world st') = nextHandle (Trans.world st) /\
     Trans.world st' = Trans.world (Trans.cleanup st)) /\
  (* the pages *)
  (forall image prompt p,
     prompt <> "" ->
     alerts "Generation failed: API_KEY not set." p
       (Pages.ImageEditor.handleGenerateClick env remote (Some image) prompt p)) /\
  (forall image effect p,
     alerts "Generation failed: API_KEY not set." p
       (Pages.ImageEffects.handleGenerateClick env remote (Some image) (Some effect) p)) /\
  (forall subject scene style prompt ratio p,
     (subject ++ scene ++ style)%list <> [] ->
     alerts "Generation failed: API_KEY not set." p
       (Pages.ImageReferenceGenerator.handleGenerate env remote subject scene style
          prompt ratio p)) /\
  (forall original originals style styles prompt ratio p,
     alerts "Generation failed: API_KEY not set." p
       (Pages.ImageReferenceGenerator.handleRestyleGenerate env remote
          (original :: originals) (style :: styles) prompt ratio p)) /\
  (forall prompt ratio p,
     prompt <> "" ->
     alerts "Generation failed: API_KEY not set." p
       (Pages.ImageReferenceGenerator.handleTextToImageGenerate env remote prompt
          ratio p)) /\
  (forall image p,
     alerts "Upscaling failed: API_KEY not set." p
       (Pages.ImageUpscaler.handleUpscaleClick env remote (Some image) p)) /\
  (forall errorUpload errorDimensions image w h p,
     (0 < w)%Z -> (0 < h)%Z ->
     alerts "API_KEY not set." p
       (Pages.ImageSizer.handleResize env remote errorUpload errorDimensions
          (Some image) (Some w) (Some h) p)) /\
  (forall errorUpload image p,
     alerts "API_KEY environment variable not set." p
       (Pages.PromptExtractor.handleExtract env remote errorUpload (Some (Some image)) p)) /\
  (forall atob content voice language p,
     content <> "" ->
     alerts "Speech generation failed: API_KEY not set." p
       (Pages.TTS.handleGenerateSpeech env remote atob content voice language p)) /\
  (forall person garment p,
     alerts "Generation failed: API_KEY not set." p
       (Pages.VirtualTryOn.handleGenerateClick env remote
          (Pages.VirtualTryOn.upload (Some person))
          (Pages.VirtualTryOn.single (Some garment)) p)) /\
  (forall person garment garments p,
     alerts "Generation failed: API_KEY not set." p
       (Pages.VirtualTryOn.handleGenerateClick env remote
          (Pages.VirtualTryOn.upload (Some person))
          (Pages.VirtualTryOn.multiple (garment :: garments)) p)) /\
  (forall url person garment p,
     alerts "Generation failed: API_KEY not set." p
       (Pages.VirtualTryOn.handleGenerateClick env remote
          (Pages.VirtualTryOn.default url (inr person))
          (Pages.VirtualTryOn.single (Some garment)) p)) /\
  (forall url person garment garments p,
     alerts "Generation failed: API_KEY not set." p
       (Pages.VirtualTryOn.handleGenerateClick env remote
          (Pages.VirtualTryOn.default url (inr person))
          (Pages.VirtualTryOn.multiple (garment :: garments)) p)) /\
  (forall errorKey selector source target p,
     let st' := Pages.FaceSwap.handleSwapClick env remote errorKey selector
                  (Some source) (Some target) (Pages.FaceSwap.mkState p true) in
     alerts "Error: API_KEY not set." p (Pages.FaceSwap.page st') /\
     Pages.FaceSwap.hasKey st' = true) /\
  (* the voice preview *)
  (forall atob play voice p,
     let p' := Pages.TTS.handlePreview env remote atob play false voice p in
     Pages.error p' = Pages.error p /\
     Pages.console p' = (Pages.console p ++ ["Preview failed: API_KEY not set."])%list /\
     Pages.sent p' = Pages.sent p).
Proof.
  intros Hkey.
  pose proof (calls_fail_fast env remote Hkey)
    as (Hextract & Hresize & Hedit & Hswap & Htext & Hspeech & Hup & Helem & Hrestyle
        & Htry & Hmulti).
  split; [exact (calls_fail_fast env remote Hkey) |].
  split.
  { intros st Hidle. cbv zeta. unfold Conv.handleStart, Conv.handleStartOf. rewrite Hidle, Hkey.
    repeat split. }
  split.
  { intros st Hidle. cbv zeta. unfold Trans.handleStartRecording, Trans.handleStartRecordingOf. rewrite Hidle, Hkey.
    repeat split. }
  split.
  { intros image prompt p Hp. unfold Pages.ImageEditor.handleGenerateClick.
    destruct prompt; [congruence |]. cbn [Pages.empty].
    rewrite Hedit. apply attempt_threw. }
  split.
  { intros. unfold Pages.ImageEffects.handleGenerateClick.
    rewrite Hedit. apply attempt_threw. }
  split.
  { intros subject scene style prompt ratio p Hne.
    unfold Pages.ImageReferenceGenerator.handleGenerate. rewrite Helem.
    destruct subject, scene, style; try apply attempt_threw. now cbn in Hne. }
  split.
  { intros. unfold Pages.ImageReferenceGenerator.handleRestyleGenerate.
    rewrite Hrestyle. apply attempt_threw. }
  split.
  { intros prompt ratio p Hp.
    unfold Pages.ImageReferenceGenerator.handleTextToImageGenerate.
    destruct prompt; [congruence |]. cbn [Pages.empty].
    rewrite Htext. apply attempt_threw. }
  split.
  { intros. unfold Pages.ImageUpscaler.handleUpscaleClick.
    rewrite Hup. apply attempt_threw. }
  split.
  { intros errorUpload errorDimensions image w h p Hw Hh.
    unfold Pages.ImageSizer.handleResize.
    destruct (Z.leb_spec w 0); [lia |]. destruct (Z.leb_spec h 0); [lia |].
    cbn [orb]. rewrite Hresize. apply (attempt_threw "" false). }
  split.
  { intros. unfold Pages.PromptExtractor.handleExtract.
    rewrite Hextract. apply (attempt_threw "" false). }
  split.
  { intros atob content voice language p Hc. unfold Pages.TTS.handleGenerateSpeech.
    destruct content; [congruence |]. cbn [Pages.empty].
    rewrite Hspeech. apply attempt_threw. }
  split.
  { intros. unfold Pages.VirtualTryOn.handleGenerateClick.
    rewrite Htry.
    eapply alerts_from; [| apply (attempt_threw "Generation failed: " true)].
    reflexivity. }
  split.
  { intros. unfold Pages.VirtualTryOn.handleGenerateClick.
    rewrite Hmulti.
    eapply alerts_from; [| apply (attempt_threw "Generation failed: " true)].
    reflexivity. }
  split.
  { intros. unfold Pages.VirtualTryOn.handleGenerateClick.
    rewrite Htry.
    eapply alerts_from; [| apply (attempt_threw "Generation failed: " true)].
    reflexivity. }
  split.
  { intros. unfold Pages.VirtualTryOn.handleGenerateClick.
    rewrite Hmulti.
    eapply alerts_from; [| apply (attempt_threw "Generation failed: " true)].
    reflexivity. }
  split.
  { intros errorKey selector source target p. cbv zeta.
    unfold Pages.FaceSwap.handleSwapClick. cbn [Pages.FaceSwap.hasKey negb].
    rewrite Hswap. cbn [Pages.FaceSwap.page Pages.FaceSwap.hasKey result threw].
    split; [apply (attempt_threw "Error: " false) | reflexivity]. }
  intros atob play voice p. cbv zeta. unfold Pages.TTS.handlePreview.
  rewrite Hspeech. cbn. now rewrite app_nil_r.
Qed.

(** Without a credential, the conversation does not start, and the editing
    page and the face swap page show the error. *)
Lemma missing_credential_fails_fast_witness :
  (let st' := Conv.handleStart Scenario.noKey Conv.initialState in
   Conv.error st'
   = Some "Failed to start conversation: API_KEY environment variable not set." /\
   Conv.status st' = Conv.idle /\
   nextHandle (Conv.world st') = nextHandle (Conv.world Conv.initialState)) /\
  editImage Scenario.noKey Scenario.offline Scenario.picture "add a hat"
  = threw "API_KEY not set." /\
  alerts "Generation failed: API_KEY not set." Pages.blank
    (Pages.ImageEditor.handleGenerateClick Scenario.noKey Scenario.offline
       (Some Scenario.picture) "add a hat" Pages.blank) /\
  alerts "Error: API_KEY not set." Pages.blank
    (Pages.FaceSwap.page
       (Pages.FaceSwap.handleSwapClick Scenario.noKey Scenario.offline "Select a key."
          Pages.FaceSwap.opens (Some Scenario.picture) (Some Scenario.picture)
          (Pages.FaceSwap.mkState Pages.blank true))).
Proof.
  destruct (missing_credential_fails_fast Scenario.noKey Scenario.offline eq_refl)
    as ((_ & _ & Hedit & _) & Hstart & _ & Hpage
        & _ & _ & _ & _ & _ & _ & _ & _ & _ & _ & _ & _ & Hswap & _).
  split.
  - destruct (Hstart Conv.initialState eq_refl) as (H1 & H2 & H3 & _).
    repeat split; assumption.
  - split; [apply Hedit |]. split; [apply Hpage; discriminate |].
    apply (Hswap "Select a key." Pages.FaceSwap.opens Scenario.picture Scenario.picture
             Pages.blank).
Defined.

End CredentialFacts.

Import Terms.

(** ** More on the codec ([Conversation.tsx], lines 27-59;
       [ImageEditor.tsx], lines 714-724) *)

Section CodecMore.
Import AudioCodec.

Lemma land_255_byte v : byte (Z.land v 255).
Proof.
  unfold byte. change 255 with (Z.ones 8). rewrite Z.land_ones by lia.
  apply Z.mod_pos_bound. lia.
Qed.

(** X1.  Framing of microphone audio: whatever the samples (out of range
    included), [createBlob] yields two bytes per sample, each between 0 and
    255, labelled ["audio/pcm;rate=16000"]. *)
Theorem createBlob_frame samples :
  List.length (data (createBlob samples)) = (2 * List.length samples)%nat /\
  Forall byte (data (createBlob samples)) /\
  mimeType (createBlob samples) = "audio/pcm;rate=16000"%string.
Proof.
  unfold createBlob. cbn [data mimeType]. split; [| split; [| reflexivity]].
  - induction samples as [| x xs IH]; [reflexivity |].
    cbn [map flat_map int16_bytes app List.length]. rewrite IH. lia.
  - induction samples as [| x xs IH]; [constructor |].
    cbn [map flat_map int16_bytes app].
    constructor; [apply land_255_byte |]. constructor; [apply land_255_byte | exact IH].
Qed.

(** The [Int16Array] view of bytes, and the bytes of its elements. *)
Lemma Int16Array_of_valid : forall n bytes,
  (List.length bytes <= n)%nat ->
  Forall byte bytes -> Nat.even (List.length bytes) = true ->
  exists vs,
    Int16Array_of_bytes bytes = Some vs /\
    Forall (fun v => -32768 <= v <= 32767) vs /\
    flat_map int16_bytes vs = bytes /\
    (2 * List.length vs = List.length bytes)%nat.
Proof.
  induction n as [| n IH]; intros bytes Hlen Hb He.
  - destruct bytes; [| cbn in Hlen; lia]. exists []. repeat split. constructor.
  - destruct bytes as [| lo [| hi rest]].
    + exists []. repeat split. constructor.
    + discriminate.
    + inversion Hb as [| ? ? Hlo Hb']; subst. inversion Hb' as [| ? ? Hhi Hrest]; subst.
      destruct (IH rest) as (vs & Hv & Hr & Hf & Hl);
        [cbn in Hlen; lia | assumption | exact He |].
      cbn [Int16Array_of_bytes]. rewrite Hv.
      unfold byte in Hlo, Hhi.
      assert (Hu : Z.lor lo (Z.shiftl hi 8) = lo + 256 * hi).
      { rewrite lor_shiftl by (change (2 ^ 8) with 256; lia). reflexivity. }
      rewrite Hu.
      set (v := if 32768 <=? lo + 256 * hi then lo + 256 * hi - 65536 else lo + 256 * hi).
      assert (Hrange : -32768 <= v <= 32767).
      { unfold v. destruct (Z.leb_spec 32768 (lo + 256 * hi)); lia. }
      assert (Hmod : v mod 256 = lo /\ (v / 256) mod 256 = hi).
      { unfold v. destruct (Z.leb_spec 32768 (lo + 256 * hi));
          Z.to_euclidean_division_equations; lia. }
      exists (v :: vs). repeat split.
      * constructor; assumption.
      * cbn [flat_map int16_bytes app]. rewrite Hf.
        change 255 with (Z.ones 8). rewrite !Z.land_ones by lia.
        rewrite Z.shiftr_div_pow2 by lia. change (2 ^ 8) with 256.
        destruct Hmod as [-> ->]. reflexivity.
      * cbn [List.length]. lia.
Qed.

Lemma requantize v :
  -32768 <= v <= 32767 -> ToInt16 ((inject_Z v / 32768) * 32768) = v.
Proof.
  intros Hv. rewrite ToInt16_small.
  - unfold trunc, Qdiv, Qmult, Qinv, inject_Z. cbn [Qnum Qden].
    change (Z.pos (1 * 32768 * 1)) with 32768.
    replace (v * 1 * 32768) with (v * 32768) by lia. apply Z.quot_mul. lia.
  - unfold trunc, Qdiv, Qmult, Qinv, inject_Z. cbn [Qnum Qden].
    change (Z.pos (1 * 32768 * 1)) with 32768.
    replace (v * 1 * 32768) with (v * 32768) by lia. rewrite Z.quot_mul by lia. exact Hv.
Qed.

(** X2.  Decoding then encoding is the identity on bytes: a non-empty
    payload of an even number of bytes decodes (mono, 24 kHz) into half as
    many frames, and [createBlob] of the decoded samples gives the payload
    back byte for byte.  (An empty payload is left out: [createBuffer]
    refuses a buffer of no frame.) *)
Theorem decode_then_encode bytes :
  Forall byte bytes -> Nat.even (List.length bytes) = true -> bytes <> [] ->
  exists samples,
    decodeAudioData bytes 24000 1
    = Some (mkAudioBuffer 1 (List.length bytes / 2) 24000 [samples]) /\
    data (createBlob samples) = bytes.
Proof.
  intros Hb He Hne.
  destruct (Int16Array_of_valid (List.length bytes) bytes (le_n _) Hb He)
    as (vs & Hv & Hr & Hf & Hl).
  exists (map (fun v => Qdiv (inject_Z v) 32768) vs). split.
  - rewrite (decodeAudioData_mono bytes 24000 vs Hv).
    + do 2 f_equal. rewrite <- Hl. now rewrite Nat.mul_comm, Nat.div_mul by lia.
    + intros ->. destruct bytes; [congruence | discriminate].
  - unfold createBlob. cbn [data]. rewrite map_map. rewrite <- Hf. f_equal.
    rewrite <- (map_id vs) at 2. apply map_ext_in. intros v Hin.
    rewrite Forall_forall in Hr. apply requantize. now apply Hr.
Qed.

Lemma decode_then_encode_witness :
  exists samples,
    decodeAudioData [0; 128; 255; 127] 24000 1
    = Some (mkAudioBuffer 1 (List.length [0; 128; 255; 127] / 2) 24000 [samples]) /\
    data (createBlob samples) = [0; 128; 255; 127].
Proof.
  apply (decode_then_encode [0; 128; 255; 127]).
  - repeat constructor; unfold byte; lia.
  - reflexivity.
  - discriminate.
Defined.

Lemma Int16Array_of_bytes_parity : forall n bytes,
  (List.length bytes <= n)%nat ->
  if Nat.even (List.length bytes)
  then exists vs, Int16Array_of_bytes bytes = Some vs /\
                  (2 * List.length vs = List.length bytes)%nat
  else Int16Array_of_bytes bytes = None.
Proof.
  induction n as [| n IH]; intros bytes Hlen.
  - destruct bytes; [| cbn in Hlen; lia]. cbn. exists []. now split.
  - destruct bytes as [| lo [| hi rest]].
    + cbn. exists []. now split.
    + reflexivity.
    + specialize (IH rest ltac:(cbn in Hlen; lia)).
      change (Nat.even (List.length (lo :: hi :: rest)))
        with (Nat.even (List.length rest)).
      cbn [Int16Array_of_bytes].
      destruct (Nat.even (List.length rest)).
      * destruct IH as (vs & -> & Hl). eexists. split; [reflexivity |].
        cbn [List.length]. lia.
      * now rewrite IH.
Qed.

Lemma channels_shape (f : nat -> nat -> Q) frames nc :
  let chans := map (fun c => map (fun i => f i c) (seq 0 frames)) (seq 0 nc) in
  List.length chans = nc /\ Forall (fun ch => List.length ch = frames) chans.
Proof.
  cbv zeta. split; [now rewrite length_map, length_seq |].
  apply Forall_forall. intros ch Hin. apply in_map_iff in Hin as (c & <- & _).
  now rewrite length_map, length_seq.
Qed.

(** X3.  The outcome of [decodeAudioData] on any audio context, by the
    shape of its input.  It throws for an odd number of bytes (the
    [RangeError] of the [Int16Array] view), for no channel, for data that
    hold no whole frame (the empty payload among them), and for a channel
    count or rate that the context does not support (the
    [NotSupportedError] of [createBuffer]).  Otherwise it gives a buffer of
    the requested channel count whose frame count is the sample count
    divided by the channel count (rounded down), every channel having that
    many samples, and whose duration is the frame count over the rate.  At
    24000 Hz, mono, every conforming context behaves as the one of the
    other statements. *)
Theorem decodeAudioData_outcome ctx bytes rate numChannels :
  (Nat.odd (List.length bytes) = true ->
   decodeAudioDataOn ctx bytes rate numChannels = None) /\
  (numChannels = 0%nat -> decodeAudioDataOn ctx bytes rate numChannels = None) /\
  ((List.length bytes < 2 * numChannels)%nat ->
   decodeAudioDataOn ctx bytes rate numChannels = None) /\
  (ctx numChannels rate = false ->
   decodeAudioDataOn ctx bytes rate numChannels = None) /\
  (Nat.even (List.length bytes) = true ->
   (0 < numChannels)%nat -> (2 * numChannels <= List.length bytes)%nat ->
   ctx numChannels rate = true ->
   exists buf,
     decodeAudioDataOn ctx bytes rate numChannels = Some buf /\
     numberOfChannels buf = numChannels /\
     length buf = (List.length bytes / 2 / numChannels)%nat /\
     (0 < length buf)%nat /\
     List.length (channelData buf) = numChannels /\
     Forall (fun channel => List.length channel = length buf) (channelData buf) /\
     duration buf = Z.of_nat (List.length bytes / 2 / numChannels) # rate) /\
  (conforming ctx ->
   decodeAudioDataOn ctx bytes 24000 1 = decodeAudioData bytes 24000 1).
Proof.
  pose proof (Int16Array_of_bytes_parity (List.length bytes) bytes (le_n _)) as H.
  unfold decodeAudioData, decodeAudioDataOn.
  split.
  { intros Hodd. rewrite <- Nat.negb_even in Hodd.
    destruct (Nat.even (List.length bytes)); [discriminate |]. now rewrite H. }
  split.
  { intros ->. now destruct (Int16Array_of_bytes bytes). }
  split.
  { intros Hshort. destruct (Nat.even (List.length bytes)); [| now rewrite H].
    destruct H as (vs & -> & Hl).
    rewrite (Nat.div_small (List.length vs) numChannels) by lia.
    now rewrite orb_true_r. }
  split.
  { intros Hno. destruct (Int16Array_of_bytes bytes); [| reflexivity].
    rewrite Hno. now rewrite orb_true_r. }
  split.
  { intros He Hnc Hframe Hyes. rewrite He in H. destruct H as (vs & Hv & Hl).
    rewrite Hv, Hyes.
    assert (Hvs : List.length vs = (List.length bytes / 2)%nat).
    { rewrite <- Hl. now rewrite Nat.mul_comm, Nat.div_mul by lia. }
    rewrite Hvs.
    assert (Hpos : (0 < List.length bytes / 2 / numChannels)%nat).
    { apply Nat.div_str_pos. split; [lia |].
      apply Nat.div_le_lower_bound; lia. }
    destruct (Nat.eqb_spec numChannels 0) as [E | _]; [lia |].
    destruct (Nat.eqb_spec (List.length bytes / 2 / numChannels) 0) as [E | _]; [lia |].
    cbn [orb negb].
    eexists. split; [reflexivity |].
    cbn [numberOfChannels length channelData duration sampleRate].
    split; [reflexivity |]. split; [reflexivity |]. split; [exact Hpos |].
    pose proof (channels_shape
                  (fun i c => Qdiv (inject_Z (nth (i * numChannels + c)%nat vs 0%Z)) 32768)
                  (List.length bytes / 2 / numChannels) numChannels) as [H1 H2].
    split; [exact H1 |]. split; [exact H2 | reflexivity]. }
  intros Hctx. rewrite (Hctx 1%nat 24000%positive); [reflexivity | lia | lia].
Qed.

Lemma Some_inj {A} (a b : A) : Some a = Some b -> a = b.
Proof. intros H. now injection H. Qed.

Lemma sample_range v :
  -32768 <= v <= 32767 -> (-1 <= inject_Z v / 32768)%Q /\ (inject_Z v / 32768 < 1)%Q.
Proof.
  intros Hv. unfold Qle, Qlt, Qdiv, Qmult, Qinv, inject_Z. cbn [Qnum Qden].
  change (Z.pos (1 * 32768)) with 32768. lia.
Qed.

Lemma Int16Array_range : forall n bytes vs,
  (List.length bytes <= n)%nat ->
  Forall byte bytes -> Int16Array_of_bytes bytes = Some vs ->
  Forall (fun v => -32768 <= v <= 32767) vs.
Proof.
  induction n as [| n IH]; intros bytes vs Hlen Hb Hv.
  - destruct bytes; [| cbn in Hlen; lia]. injection Hv as <-. constructor.
  - destruct bytes as [| lo [| hi rest]].
    + injection Hv as <-. constructor.
    + discriminate.
    + cbn [Int16Array_of_bytes] in Hv.
      destruct (Int16Array_of_bytes rest) as [r |] eqn:Hr; [| discriminate].
      set (u := Z.lor lo (Z.shiftl hi 8)) in Hv.
      injection Hv as <-. subst u.
      inversion Hb as [| ? ? Hlo Hb']; subst. inversion Hb' as [| ? ? Hhi Hrest]; subst.
      unfold byte in Hlo, Hhi.
      constructor; [| apply (IH rest); [cbn in Hlen; lia | assumption | assumption]].
      rewrite lor_shiftl by (change (2 ^ 8) with 256; lia). change (2 ^ 8) with 256.
      destruct (Z.leb_spec 32768 (lo + 256 * hi)); lia.
Qed.

(** X4.  Every sample of a decoded buffer lies in [-1, 1): at least -1 and
    strictly below 1. *)
Theorem decoded_samples_in_range bytes rate numChannels buf :
  Forall byte bytes ->
  decodeAudioData bytes rate numChannels = Some buf ->
  Forall (Forall (fun s => (-1 <= s)%Q /\ (s < 1)%Q)) (channelData buf).
Proof.
  intros Hb Hd. unfold decodeAudioData, decodeAudioDataOn in Hd.
  destruct (Int16Array_of_bytes bytes) as [vs |] eqn:Hv; [| discriminate].
  destruct (_ || _ || _); [discriminate |].
  set (cd := map _ (seq 0 numChannels)) in Hd.
  apply Some_inj in Hd. subst buf. cbn [channelData]. subst cd.
  pose proof (Int16Array_range (List.length bytes) bytes vs (le_n _) Hb Hv) as Hr.
  apply Forall_forall. intros ch Hch. apply in_map_iff in Hch as (c & <- & _).
  apply Forall_forall. intros s Hs. apply in_map_iff in Hs as (i & <- & _).
  apply sample_range.
  destruct (Nat.lt_ge_cases (i * numChannels + c) (List.length vs)) as [Hin | Hout].
  - rewrite Forall_forall in Hr. apply Hr. now apply nth_In.
  - rewrite nth_overflow by assumption. lia.
Qed.

Lemma quantize_toward_zero x :
  (-1 <= x)%Q -> (x < 1)%Q ->
  let y := (inject_Z (ToInt16 (x * 32768)) / 32768)%Q in
  close x y /\
  ((0 <= x)%Q -> (0 <= y)%Q /\ (y <= x)%Q) /\
  ((x <= 0)%Q -> (x <= y)%Q /\ (y <= 0)%Q).
Proof.
  intros Hlo Hhi. cbv zeta.
  destruct (quantize_close x Hlo Hhi) as [-> Hc]. split; [exact Hc |].
  destruct x as [n d]. unfold Qle, Qlt in *. cbn [Qnum Qden] in *.
  assert (Ht : trunc ((n # d) * 32768) = (n * 32768) ÷ Zpos d).
  { unfold trunc. cbn [Qmult Qnum Qden]. now rewrite Pos.mul_1_r. }
  rewrite Ht.
  pose proof (trunc_remainder (n * 32768) (Zpos d) ltac:(lia)) as [Hpos Hneg].
  unfold Qdiv, Qmult, Qinv, inject_Z. cbn [Qnum Qden].
  change (Z.pos (1 * 32768)) with 32768.
  set (t := n * 32768 ÷ Z.pos d) in *.
  split; intros Hn.
  - specialize (Hpos ltac:(lia)). split; nia.
  - specialize (Hneg ltac:(lia)). split; nia.
Qed.

(** X5.  Encoding samples of [-1, 1) and decoding them back keeps their
    number, and every sample comes back within 1/32768 of its value, never
    further from zero than it was and never with the other sign: the
    conversion truncates toward zero. *)
Theorem quantization_truncates xs :
  Forall (fun x => (-1 <= x)%Q /\ (x < 1)%Q) xs -> xs <> [] ->
  exists ys,
    decodeAudioData (data (createBlob xs)) 24000 1
    = Some (mkAudioBuffer 1 (List.length xs) 24000 [ys]) /\
    Forall2 (fun x y =>
               close x y /\
               ((0 <= x)%Q -> (0 <= y)%Q /\ (y <= x)%Q) /\
               ((x <= 0)%Q -> (x <= y)%Q /\ (y <= 0)%Q)) xs ys.
Proof.
  intros Hxs Hne.
  exists (map (fun x => Qdiv (inject_Z (ToInt16 (x * 32768))) 32768) xs). split.
  - unfold createBlob. cbn [data].
    rewrite (decodeAudioData_mono _ _ (map (fun x => ToInt16 (x * 32768)) xs)).
    + rewrite map_map, length_map. reflexivity.
    + apply Int16Array_view. rewrite Forall_map. apply Forall_forall.
      intros. apply ToInt16_range.
    + destruct xs; [congruence | discriminate].
  - clear Hne. induction Hxs as [| x xs [Hlo Hhi] _ IH]; cbn [map]; constructor.
    + apply (quantize_toward_zero x Hlo Hhi).
    + exact IH.
Qed.

Lemma decoded_samples_in_range_witness :
  Forall (Forall (fun s => (-1 <= s)%Q /\ (s < 1)%Q))
    (channelData (mkAudioBuffer 1 2 24000 [[-32768 # 32768; 32767 # 32768]])).
Proof.
  apply (decoded_samples_in_range [0; 128; 255; 127] 24000 1).
  - repeat constructor; unfold byte; lia.
  - reflexivity.
Defined.

Lemma quantization_truncates_witness :
  exists ys,
    decodeAudioData (data (createBlob [1 # 2; - (1 # 3)]%Q)) 24000 1
    = Some (mkAudioBuffer 1 (List.length [1 # 2; - (1 # 3)]%Q) 24000 [ys]) /\
    Forall2 (fun x y =>
               close x y /\
               ((0 <= x)%Q -> (0 <= y)%Q /\ (y <= x)%Q) /\
               ((x <= 0)%Q -> (x <= y)%Q /\ (y <= 0)%Q)) [1 # 2; - (1 # 3)]%Q ys.
Proof.
  apply (quantization_truncates [1 # 2; - (1 # 3)]%Q).
  - repeat (constructor; [split; [unfold Qle | unfold Qlt]; cbn; lia |]). constructor.
  - discriminate.
Defined.

End CodecMore.

(** ** More on the container ([TTS.tsx], lines 30-80) *)

Section WavMore.
Import Wav.

Lemma skipn_header N rest : skipn 44 (header N ++ rest) = rest.
Proof. reflexivity. Qed.

Lemma length_header N : List.length (header N) = 44%nat.
Proof. reflexivity. Qed.

(** X6.  [createWavUrl] never fails: for every payload it produces a
    container of 44 more bytes whose tail after the header is the payload
    unchanged, and whose two size fields hold the payload size plus 36, and
    the payload size, both modulo 2^32. *)
Theorem container_always_produced pcmData :
  let N := Z.of_nat (List.length pcmData) in
  exists wav,
    createWavUrl pcmData = Some wav /\
    List.length wav = (44 + List.length pcmData)%nat /\
    skipn 44 wav = pcmData /\
    getUint32 wav 4 = Some ((36 + N) mod 4294967296) /\
    getUint32 wav 40 = Some (N mod 4294967296).
Proof.
  intros N. exists (header N ++ pcmData).
  split; [apply createWavUrl_layout |].
  split; [rewrite length_app, length_header; reflexivity |].
  split; [apply skipn_header |].
  destruct (header_fields N pcmData) as (H4 & H40 & _). split; assumption.
Qed.

(** X7.  The container and the conversation's decoder agree on the format:
    the bytes after the 44-byte header decode (mono, 24 kHz) exactly as the
    payload does, and the duration of the decoded buffer times the header's
    byte rate is the payload size. *)
Theorem container_payload_plays pcmData wav :
  createWavUrl pcmData = Some wav -> pcmData <> [] ->
  AudioCodec.decodeAudioData (skipn 44 wav) 24000 1
  = AudioCodec.decodeAudioData pcmData 24000 1 /\
  forall buf,
    AudioCodec.decodeAudioData pcmData 24000 1 = Some buf ->
    (AudioCodec.duration buf * inject_Z byteRate
     == inject_Z (Z.of_nat (List.length pcmData)))%Q.
Proof.
  intros Hw _. rewrite createWavUrl_layout in Hw. apply Some_inj in Hw. subst wav.
  split; [now rewrite skipn_header |].
  intros buf Hd.
  pose proof (Int16Array_of_bytes_parity (List.length pcmData) pcmData (le_n _)) as Hp.
  unfold AudioCodec.decodeAudioData, AudioCodec.decodeAudioDataOn in Hd.
  destruct (Nat.even (List.length pcmData)).
  - destruct Hp as (vs & Hv & Hl). rewrite Hv, Nat.div_1_r in Hd.
    destruct (_ || _ || _); [discriminate |].
    set (cd := map _ (seq 0 1)) in Hd. apply Some_inj in Hd. subst buf.
    unfold AudioCodec.duration. cbn [AudioCodec.length AudioCodec.sampleRate].
    unfold Qeq, Qmult, inject_Z. cbn [Qnum Qden].
    change byteRate with 48000. rewrite <- Hl. lia.
  - rewrite Hp in Hd. discriminate.
Qed.

Lemma container_payload_plays_witness :
  AudioCodec.decodeAudioData (skipn 44 (header 4 ++ [0; 128; 255; 127])) 24000 1
  = AudioCodec.decodeAudioData [0; 128; 255; 127] 24000 1 /\
  forall buf,
    AudioCodec.decodeAudioData [0; 128; 255; 127] 24000 1 = Some buf ->
    (AudioCodec.duration buf * inject_Z byteRate
     == inject_Z (Z.of_nat (List.length [0; 128; 255; 127])))%Q.
Proof.
  apply (container_payload_plays [0; 128; 255; 127] (header 4 ++ [0; 128; 255; 127])).
  - vm_compute. reflexivity.
  - discriminate.
Defined.

End WavMore.

(** ** More on the scheduler ([Conversation.tsx], lines 191-212) *)

Section SchedulerMore.
Import AudioCodec Conversation.

Lemma Math_max_early t next : (t <= next)%Q -> (Math_max t next == next)%Q.
Proof.
  intros H. unfold Math_max. destruct (Qlt_le_dec t next) as [_ | Hge]; [reflexivity |].
  now apply Qle_antisym.
Qed.

Lemma Math_max_late t next : (next <= t)%Q -> (Math_max t next == t)%Q.
Proof.
  intros H. unfold Math_max. destruct (Qlt_le_dec t next) as [Hlt | _]; [| reflexivity].
  apply Qle_antisym; [assumption | now apply Qlt_le_weak].
Qed.

Lemma Math_max_arrival t next : (t <= Math_max t next)%Q.
Proof.
  unfold Math_max. destruct (Qlt_le_dec t next); [now apply Qlt_le_weak | apply Qle_refl].
Qed.

Lemma plan_follows chunks : forall next i t b,
  nth_error chunks i = Some (t, b) ->
  exists s, nth_error (plan next chunks) i = Some (s, b) /\ (t <= s)%Q.
Proof.
  induction chunks as [| [t0 b0] rest IH]; intros next i t b H.
  - destruct i; discriminate.
  - destruct i as [| i]; cbn [plan nth_error] in *.
    + injection H as <- <-. eexists. split; [reflexivity | apply Math_max_arrival].
    + apply IH. exact H.
Qed.

Lemma plan_gap chunks : forall next i s1 b1 s2 b2 t2 b2',
  nth_error (plan next chunks) i = Some (s1, b1) ->
  nth_error (plan next chunks) (S i) = Some (s2, b2) ->
  nth_error chunks (S i) = Some (t2, b2') ->
  ((t2 <= s1 + duration b1)%Q -> (s2 == s1 + duration b1)%Q) /\
  ((s1 + duration b1 <= t2)%Q -> (s2 == t2)%Q).
Proof.
  induction chunks as [| [t b] rest IH]; intros next i s1 b1 s2 b2 t2 b2' H1 H2 H3.
  - destruct i; discriminate.
  - cbn [plan] in H1, H2. destruct i as [| i].
    + cbn [nth_error] in H1, H2, H3. injection H1 as <- <-.
      destruct rest as [| [t' b'] rest']; [discriminate |].
      cbn [plan nth_error] in H2, H3. injection H2 as <- _. injection H3 as <- _.
      split; [apply Math_max_early | apply Math_max_late].
    + cbn [nth_error] in H1, H2, H3. exact (IH _ i _ _ _ _ _ _ H1 H2 H3).
Qed.

Lemma plan_length chunks : forall next,
  List.length (plan next chunks) = List.length chunks.
Proof.
  induction chunks as [| [t b] rest IH]; intros next; [reflexivity |].
  cbn [plan List.length]. now rewrite IH.
Qed.

(** X8.  Over a run of messages without interruption, while the output
    context is held: exactly one [source.start] call is made per chunk, in
    arrival order, with the chunk's own buffer and never before the clock
    reading of its arrival; and consecutive chunks play back to back: a
    chunk that arrives before the end of the one before starts exactly at
    that end, one that arrives later starts at its arrival. *)
Theorem gapless_playback st ms :
  Forall (fun tm => interrupted (snd tm) = false) ms ->
  outputAudioContextRef st <> None ->
  exists calls,
    started (world (run ms st)) = started (world st) ++ calls /\
    List.length calls = List.length (arrivals ms) /\
    (forall i c t b,
       nth_error calls i = Some c -> nth_error (arrivals ms) i = Some (t, b) ->
       buffer c = b /\ (t <= startTime c)%Q) /\
    (forall i c1 c2 t2 b2,
       nth_error calls i = Some c1 -> nth_error calls (S i) = Some c2 ->
       nth_error (arrivals ms) (S i) = Some (t2, b2) ->
       let end1 := (startTime c1 + duration (buffer c1))%Q in
       ((t2 <= end1)%Q -> (startTime c2 == end1)%Q) /\
       ((end1 <= t2)%Q -> (startTime c2 == t2)%Q)).
Proof.
  intros Hms Hctx.
  destruct (run_schedules ms st Hms Hctx) as (_ & _ & calls & Hs & Hp).
  assert (Hnth : forall i c, nth_error calls i = Some c ->
            nth_error (plan (nextStartTimeRef st) (arrivals ms)) i
            = Some (startTime c, buffer c)).
  { intros i c H. rewrite <- Hp, nth_error_map, H. reflexivity. }
  exists calls. split; [exact Hs |]. split.
  { rewrite <- (length_map timing calls), Hp. apply plan_length. }
  split.
  - intros i c t b Hc Ha.
    destruct (plan_follows (arrivals ms) (nextStartTimeRef st) i t b Ha) as (s & Hs' & Hle).
    rewrite (Hnth i c Hc) in Hs'. injection Hs' as <- <-. now split.
  - intros i c1 c2 t2 b2 H1 H2 H3. cbv zeta.
    exact (plan_gap (arrivals ms) (nextStartTimeRef st) i _ _ _ _ t2 b2
             (Hnth i c1 H1) (Hnth (S i) c2 H2) H3).
Qed.

Lemma gapless_playback_witness :
  exists calls,
    started (world (run Scenario.three_chunks Scenario.listening))
    = started (world Scenario.listening) ++ calls /\
    List.length calls = List.length (arrivals Scenario.three_chunks) /\
    (forall i c t b,
       nth_error calls i = Some c ->
       nth_error (arrivals Scenario.three_chunks) i = Some (t, b) ->
       buffer c = b /\ (t <= startTime c)%Q) /\
    (forall i c1 c2 t2 b2,
       nth_error calls i = Some c1 -> nth_error calls (S i) = Some c2 ->
       nth_error (arrivals Scenario.three_chunks) (S i) = Some (t2, b2) ->
       let end1 := (startTime c1 + duration (buffer c1))%Q in
       ((t2 <= end1)%Q -> (startTime c2 == end1)%Q) /\
       ((end1 <= t2)%Q -> (startTime c2 == t2)%Q)).
Proof.
  apply (gapless_playback Scenario.listening Scenario.three_chunks).
  - repeat constructor.
  - vm_compute. discriminate.
Defined.

End SchedulerMore.

(** ** The scheduled set and the devices during a session *)

Section ControllerMore.
Import AudioCodec Conversation.

(** How each handler moves the scheduled set, the handle counter and the
    start calls. *)
Lemma tracked_step st st' :
  sourcesTracked st ->
  NoDup (audioSourcesRef st') ->
  incl (audioSourcesRef st') (audioSourcesRef st) ->
  (nextHandle (world st) <= nextHandle (world st'))%nat ->
  incl (map source (started (world st))) (map source (started (world st'))) ->
  sourcesTracked st'.
Proof.
  intros [Hnd Hin] Hnd' Hsub Hnext Hsrc. split; [exact Hnd' |].
  intros s Hs. destruct (Hin s (Hsub s Hs)) as [Hlt Hst]. split; [lia | now apply Hsrc].
Qed.

Lemma handleStart_sources env st :
  audioSourcesRef (handleStart env st) = audioSourcesRef st /\
  started (world (handleStart env st)) = started (world st) /\
  (nextHandle (world st) <= nextHandle (world (handleStart env st)))%nat.
Proof.
  unfold handleStart, handleStartOf. destruct (negb _); [repeat split; lia |].
  destruct (keyMissing env); [repeat split; cbn; lia |].
  destruct (getUserMedia env); repeat split; cbn; lia.
Qed.

Lemma onopen_sources st :
  audioSourcesRef (onopen st) = audioSourcesRef st /\
  started (world (onopen st)) = started (world st) /\
  (nextHandle (world st) <= nextHandle (world (onopen st)))%nat.
Proof.
  unfold onopen. cbn.
  destruct (inputAudioContextRef st), (mediaStreamRef st); repeat split; cbn; lia.
Qed.

Lemma handleStop_sources st :
  audioSourcesRef (handleStop st) = audioSourcesRef st /\
  started (world (handleStop st)) = started (world st) /\
  nextHandle (world (handleStop st)) = nextHandle (world st).
Proof. unfold handleStop. destruct (Status_eqb _ _); repeat split. Qed.

Lemma onAudio_tracked t m st :
  sourcesTracked st -> sourcesTracked (onAudio t m st).
Proof.
  intros Htr. unfold onAudio.
  destruct (modelTurnAudio m) as [b |]; [| exact Htr].
  destruct (outputAudioContextRef st); [| exact Htr].
  destruct Htr as [Hnd Hin].
  assert (Hfresh : existsb (Nat.eqb (nextHandle (world st))) (audioSourcesRef st) = false).
  { apply not_true_is_false. intros He. apply existsb_exists in He as (s & Hs & Heq).
    apply Nat.eqb_eq in Heq. destruct (Hin s Hs) as [Hlt _]. lia. }
  split; cbn; unfold Set_add; rewrite Hfresh.
  - apply NoDup_app; [exact Hnd | repeat constructor; intros [] | ].
    intros s Hs [<- | []]. destruct (Hin _ Hs). lia.
  - intros s Hs. rewrite map_app. cbn [map source].
    apply in_app_or in Hs as [Hs | [<- | []]].
    + destruct (Hin s Hs). split; [lia | apply in_or_app; now left].
    + split; [lia | apply in_or_app; right; now left].
Qed.

Lemma onTranscription_tracked m st :
  sourcesTracked st -> sourcesTracked (onTranscription m st).
Proof.
  unfold onTranscription.
  now destruct (inputTranscription m), (outputTranscription m).
Qed.

Lemma onInterrupted_tracked m st :
  sourcesTracked st -> sourcesTracked (onInterrupted m st).
Proof.
  intros Htr. unfold onInterrupted. destruct (interrupted m); [| exact Htr].
  split; cbn; [constructor | intros s []].
Qed.

Lemma onTurnComplete_tracked m st :
  sourcesTracked st -> sourcesTracked (onTurnComplete m st).
Proof.
  unfold onTurnComplete. destruct (turnComplete m); [| tauto].
  now destruct (truthy _ || truthy _).
Qed.

Lemma step_tracked st e : sourcesTracked st -> sourcesTracked (step st e).
Proof.
  intros Htr. destruct e as [env | | | t m | s |]; cbn [step].
  - destruct (handleStart_sources env st) as (Hs & Hst & Hn).
    apply (tracked_step st); rewrite ?Hs, ?Hst;
      [exact Htr | apply Htr | apply incl_refl | exact Hn | apply incl_refl].
  - destruct (handleStop_sources st) as (Hs & Hst & Hn).
    apply (tracked_step st); rewrite ?Hs, ?Hst, ?Hn;
      [exact Htr | apply Htr | apply incl_refl | apply le_n | apply incl_refl].
  - destruct (onopen_sources st) as (Hs & Hst & Hn).
    apply (tracked_step st); rewrite ?Hs, ?Hst;
      [exact Htr | apply Htr | apply incl_refl | exact Hn | apply incl_refl].
  - unfold onmessage.
    now apply onTurnComplete_tracked, onInterrupted_tracked, onAudio_tracked,
      onTranscription_tracked.
  - apply (tracked_step st); cbn;
      [exact Htr | apply NoDup_filter, Htr | apply incl_filter | apply le_n
      | apply incl_refl].
  - exact Htr.
Qed.

(** X9.  Whatever happens to the conversation from its first render, the
    set of scheduled sources never holds a source twice and only holds
    sources that were created and started; and once a source has ended it is
    not in the set. *)
Theorem scheduled_set_tracked es :
  sourcesTracked (runEvents es initialState) /\
  forall s, ~ In s (audioSourcesRef (onended s (runEvents es initialState))).
Proof.
  split.
  - assert (H : forall st, sourcesTracked st -> sourcesTracked (runEvents es st)).
    { induction es as [| e es IH]; intros st Hst; [exact Hst |].
      cbn [runEvents fold_left]. apply IH. now apply step_tracked. }
    apply H. split; [constructor | intros s []].
  - intros s. cbn. unfold delete. intros Hin. apply filter_In in Hin as [_ Hneq].
    now rewrite Nat.eqb_refl in Hneq.
Qed.

(** What a message and the end of a source leave alone. *)
Lemma sameDevices_refl st : sameDevices st st.
Proof. unfold sameDevices. repeat split. Qed.

Lemma sameDevices_trans a b c : sameDevices a b -> sameDevices b c -> sameDevices a c.
Proof.
  unfold sameDevices.
  intros (A1 & A2 & A3 & A4 & A5 & A6 & A7 & A8 & A9)
         (B1 & B2 & B3 & B4 & B5 & B6 & B7 & B8 & B9).
  repeat split; congruence.
Qed.

Lemma onTranscription_devices m st :
  sameDevices st (onTranscription m st) /\
  error (onTranscription m st) = error st /\
  (status st <> idle -> status (onTranscription m st) <> idle).
Proof.
  unfold onTranscription, sameDevices.
  destruct (inputTranscription m), (outputTranscription m); cbn;
    repeat split; try discriminate; auto.
Qed.

Lemma onAudio_devices t m st :
  sameDevices st (onAudio t m st) /\
  error (onAudio t m st) = error st /\ status (onAudio t m st) = status st.
Proof.
  unfold onAudio, sameDevices.
  destruct (modelTurnAudio m), (outputAudioContextRef st) eqn:Hc; repeat split;
    cbn; congruence.
Qed.

Lemma onInterrupted_devices m st :
  sameDevices st (onInterrupted m st) /\
  error (onInterrupted m st) = error st /\ status (onInterrupted m st) = status st.
Proof. unfold onInterrupted, sameDevices. destruct (interrupted m); repeat split. Qed.

Lemma onTurnComplete_devices m st :
  sameDevices st (onTurnComplete m st) /\
  error (onTurnComplete m st) = error st /\
  (status st <> idle -> status (onTurnComplete m st) <> idle).
Proof.
  unfold onTurnComplete, sameDevices.
  destruct (turnComplete m); [| repeat split; auto].
  destruct (truthy _ || truthy _); cbn; repeat split; discriminate.
Qed.

Lemma onmessage_devices t m st :
  sameDevices st (onmessage t m st) /\
  error (onmessage t m st) = error st /\
  (status st <> idle -> status (onmessage t m st) <> idle).
Proof.
  unfold onmessage.
  destruct (onTranscription_devices m st) as (D1 & E1 & S1).
  destruct (onAudio_devices t m (onTranscription m st)) as (D2 & E2 & S2).
  destruct (onInterrupted_devices m (onAudio t m (onTranscription m st)))
    as (D3 & E3 & S3).
  destruct (onTurnComplete_devices m
              (onInterrupted m (onAudio t m (onTranscription m st))))
    as (D4 & E4 & S4).
  split; [| split].
  - exact (sameDevices_trans _ _ _ D1
             (sameDevices_trans _ _ _ D2 (sameDevices_trans _ _ _ D3 D4))).
  - congruence.
  - intros H. apply S4. rewrite S3, S2. now apply S1.
Qed.

Lemma onended_devices s st :
  sameDevices st (onended s st) /\ status (onended s st) = status st.
Proof. unfold sameDevices. repeat split. Qed.

Lemma session_events_frame es : forall st,
  Forall (fun e => duringSession e = true) es ->
  status st <> idle ->
  sameDevices st (runEvents es st) /\ status (runEvents es st) <> idle.
Proof.
  induction es as [| e es IH]; intros st Hes Hst.
  - split; [apply sameDevices_refl | exact Hst].
  - inversion Hes as [| ? ? He Hrest]; subst. cbn [runEvents fold_left].
    assert (Hstep : sameDevices st (step st e) /\ status (step st e) <> idle).
    { destruct e as [env | | | t m | s |]; try discriminate; cbn [step].
      - destruct (onmessage_devices t m st) as (H1 & _ & H3). auto.
      - destruct (onended_devices s st) as (H1 & H2). split; [exact H1 | congruence]. }
    destruct Hstep as [Hd Hs].
    destruct (IH (step st e) Hrest Hs) as [Hd' Hs'].
    split; [exact (sameDevices_trans _ _ _ Hd Hd') | exact Hs'].
Qed.

(** X10.  A server message and the end of a source leave the devices
    alone: the five refs, the capturing streams, the taps, the audio
    contexts and the sessions are the same after as before.  A message does
    not change the error shown and never makes a running conversation idle;
    the end of a source does not change the status. *)
Theorem messages_touch_no_device :
  (forall t m st,
     sameDevices st (onmessage t m st) /\
     error (onmessage t m st) = error st /\
     (status st <> idle -> status (onmessage t m st) <> idle)) /\
  (forall s st,
     sameDevices st (onended s st) /\ status (onended s st) = status st).
Proof. split; [exact onmessage_devices | exact onended_devices]. Qed.

End ControllerMore.

(** ** Teardown and the error callbacks *)

Section TeardownMore.
Import Conversation.

Lemma delete_self h : delete h [h] = [].
Proof. unfold delete. simpl. now rewrite Nat.eqb_refl. Qed.

Lemma delete_pair h : delete (S h) (delete h [h; S h]) = [].
Proof.
  unfold delete. cbv [filter].
  destruct (Nat.eqb_spec h h) as [_ | E]; [| now elim E].
  destruct (Nat.eqb_spec (S h) h) as [E | _]; [lia |]. cbv [negb].
  destruct (Nat.eqb_spec (S h) (S h)) as [_ | E]; [reflexivity | now elim E].
Qed.

(** X15.  Stop after a session releases everything: from an idle
    conversation that holds nothing, with the credential set and the
    microphone granted, start, the opening of the session, any messages and
    source ends, then [handleStop], leave the status idle, the five refs
    null, and no stream capturing, no tap connected, no audio context open
    and no session open. *)
Theorem stop_releases_session env st es :
  status st = idle -> released (world st) ->
  keyMissing env = false -> getUserMedia env = None ->
  Forall (fun e => duringSession e = true) es ->
  let st' := handleStop (runEvents es (onopen (handleStart env st))) in
  status st' = idle /\
  released (world st') /\
  mediaStreamRef st' = None /\ scriptProcessorRef st' = None /\
  inputAudioContextRef st' = None /\ outputAudioContextRef st' = None /\
  sessionPromiseRef st' = None.
Proof.
  intros Hidle (Hc & Ht & Hx & Hs) Hkey Hmic Hes. cbv zeta.
  set (st1 := onopen (handleStart env st)).
  assert (H1 : status st1 = listening /\
               mediaStreamRef st1 = Some (nextHandle (world st)) /\
               inputAudioContextRef st1 = Some (S (nextHandle (world st))) /\
               outputAudioContextRef st1 = Some (S (S (nextHandle (world st)))) /\
               sessionPromiseRef st1 = Some (S (S (S (nextHandle (world st))))) /\
               scriptProcessorRef st1 = Some (S (S (S (S (nextHandle (world st)))))) /\
               capturing (world st1) = [nextHandle (world st)] /\
               taps (world st1) = [S (S (S (S (nextHandle (world st)))))] /\
               contexts (world st1)
               = [S (nextHandle (world st)); S (S (nextHandle (world st)))] /\
               sessions (world st1) = [S (S (S (nextHandle (world st))))]).
  { unfold st1, onopen, handleStart, handleStartOf. rewrite Hidle, Hkey, Hmic. cbn.
    rewrite Hc, Ht, Hx, Hs. repeat split. }
  destruct H1 as (Hst & R1 & R2 & R3 & R4 & R5 & W1 & W2 & W3 & W4).
  destruct (session_events_frame es st1 Hes ltac:(rewrite Hst; discriminate))
    as ((D1 & D2 & D3 & D4 & D5 & D6 & D7 & D8 & D9) & Hbusy).
  set (st2 := runEvents es st1) in *.
  unfold handleStop.
  destruct (Status_eqb (status st2) idle) eqn:E.
  { exfalso. apply Hbusy. now destruct (status st2). }
  unfold released. cbn.
  rewrite D1, D2, D3, D4, D5, D6, D7, D8, D9, R1, R2, R3, R4, R5, W1, W2, W3, W4.
  cbn [release]. rewrite !delete_self, delete_pair. repeat split.
Qed.

Lemma stop_releases_session_witness :
  let st' := handleStop
               (runEvents [Message 0 (Scenario.audio 240); Ended 5%nat;
                           Message 1 Scenario.turnEnd]
                  (onopen (handleStart Scenario.env Scenario.used))) in
  status st' = idle /\
  released (world st') /\
  mediaStreamRef st' = None /\ scriptProcessorRef st' = None /\
  inputAudioContextRef st' = None /\ outputAudioContextRef st' = None /\
  sessionPromiseRef st' = None.
Proof.
  apply (stop_releases_session Scenario.env Scenario.used
           [Message 0 (Scenario.audio 240); Ended 5%nat; Message 1 Scenario.turnEnd]).
  - reflexivity.
  - vm_compute. repeat split.
  - reflexivity.
  - reflexivity.
  - repeat constructor.
Defined.

Lemma delete_absent h l : existsb (Nat.eqb h) l = false -> delete h l = l.
Proof.
  intros H. unfold delete. induction l as [| x l IH]; [reflexivity |].
  cbn in H |- *. apply orb_false_iff in H as [Hx Hl].
  rewrite Nat.eqb_sym, Hx. cbn. now rewrite IH.
Qed.

Lemma delete_gone h l : existsb (Nat.eqb h) (delete h l) = false.
Proof.
  unfold delete. induction l as [| x l IH]; [reflexivity |].
  cbn. destruct (Nat.eqb x h) eqn:E; cbn; [exact IH |].
  now rewrite Nat.eqb_sym, E, IH.
Qed.

(** X14.  Teardown is idempotent in both components: [cleanup] run twice
    leaves what one run leaves, and so does [handleStop]
    ([handleStopRecording]) pressed twice. *)
Theorem teardown_idempotent :
  (forall st, cleanup (cleanup st) = cleanup st) /\
  (forall st, handleStop (handleStop st) = handleStop st) /\
  (forall st, AudioTranscriber.cleanup (AudioTranscriber.cleanup st)
              = AudioTranscriber.cleanup st) /\
  (forall st, AudioTranscriber.handleStopRecording (AudioTranscriber.handleStopRecording st)
              = AudioTranscriber.handleStopRecording st).
Proof.
  split; [reflexivity |].
  split.
  { intros st. unfold handleStop at 2 3. destruct (Status_eqb (status st) idle) eqn:E.
    - unfold handleStop. now rewrite E.
    - reflexivity. }
  split.
  { intros st. unfold AudioTranscriber.cleanup. cbn.
    destruct (AudioTranscriber.audioContextRef st) as [ctx |]; [| reflexivity].
    cbn [release].
    destruct (existsb (Nat.eqb ctx) (contexts (AudioTranscriber.world st))) eqn:E.
    - reflexivity.
    - cbn [release]. rewrite !(delete_absent ctx _ E), E. reflexivity. }
  intros st. unfold AudioTranscriber.handleStopRecording at 2 3.
  destruct (AudioTranscriber.isRecording st) eqn:E; cbn [negb].
  - reflexivity.
  - unfold AudioTranscriber.handleStopRecording. now rewrite E.
Qed.

End TeardownMore.

Section ErrorsMore.
Import Conversation SessionErrors.
Local Open Scope string_scope.


End ErrorsMore.

(** ** The transcriber's teardown, and a session that opens late *)

Section RecorderMore.
Import AudioTranscriber.

Lemma transcriber_onmessage_frame m st :
  isRecording (onmessage m st) = isRecording st /\
  error (onmessage m st) = error st /\
  sessionPromiseRef (onmessage m st) = sessionPromiseRef st /\
  audioContextRef (onmessage m st) = audioContextRef st /\
  scriptProcessorRef (onmessage m st) = scriptProcessorRef st /\
  mediaStreamRef (onmessage m st) = mediaStreamRef st /\
  world (onmessage m st) = world st.
Proof.
  unfold onmessage.
  destruct (inputTranscription m), (turnComplete m); repeat split.
Qed.

Lemma transcriber_run_frame ms : forall st,
  isRecording (run ms st) = isRecording st /\
  error (run ms st) = error st /\
  sessionPromiseRef (run ms st) = sessionPromiseRef st /\
  audioContextRef (run ms st) = audioContextRef st /\
  scriptProcessorRef (run ms st) = scriptProcessorRef st /\
  mediaStreamRef (run ms st) = mediaStreamRef st /\
  world (run ms st) = world st.
Proof.
  induction ms as [| m ms IH]; intros st; [repeat split |].
  cbn [run].
  destruct (IH (onmessage m st)) as (A1 & A2 & A3 & A4 & A5 & A6 & A7).
  destruct (transcriber_onmessage_frame m st) as (B1 & B2 & B3 & B4 & B5 & B6 & B7).
  repeat split; congruence.
Qed.

(** X16.  The same for the transcriber: from a transcriber that is not
    recording and holds nothing, start, the opening of the session, any
    messages, then [handleStopRecording], leave it not recording, the four
    refs null and nothing held; the committed transcript is kept and no
    error is shown. *)
Theorem stop_recording_releases env st ms :
  isRecording st = false -> released (world st) ->
  keyMissing env = false -> getUserMedia env = None ->
  let st1 := run ms (onopen (handleStartRecording env st)) in
  let st' := handleStopRecording st1 in
  isRecording st' = false /\
  released (world st') /\
  mediaStreamRef st' = None /\ scriptProcessorRef st' = None /\
  audioContextRef st' = None /\ sessionPromiseRef st' = None /\
  transcription st' = transcription st1 /\ error st' = None.
Proof.
  intros Hidle (Hc & Ht & Hx & Hs) Hkey Hmic. cbv zeta.
  set (st0 := onopen (handleStartRecording env st)).
  assert (H0 : isRecording st0 = true /\ error st0 = None /\
               mediaStreamRef st0 = Some (nextHandle (world st)) /\
               audioContextRef st0 = Some (S (nextHandle (world st))) /\
               sessionPromiseRef st0 = Some (S (S (nextHandle (world st)))) /\
               scriptProcessorRef st0 = Some (S (S (S (nextHandle (world st))))) /\
               capturing (world st0) = [nextHandle (world st)] /\
               taps (world st0) = [S (S (S (nextHandle (world st))))] /\
               contexts (world st0) = [S (nextHandle (world st))] /\
               sessions (world st0) = [S (S (nextHandle (world st)))]).
  { unfold st0, onopen, handleStartRecording, handleStartRecordingOf. rewrite Hidle, Hkey, Hmic. cbn.
    rewrite Hc, Ht, Hx, Hs. repeat split. }
  destruct H0 as (Hrec & Herr & R1 & R2 & R3 & R4 & W1 & W2 & W3 & W4).
  destruct (transcriber_run_frame ms st0) as (F1 & F2 & F3 & F4 & F5 & F6 & F7).
  set (st1 := run ms st0) in *.
  unfold handleStopRecording. rewrite F1, Hrec. cbn [negb].
  unfold released, cleanup, setRecordingError. cbn.
  rewrite F2, F3, F4, F5, F6, F7, Herr, R1, R2, R3, R4, W1, W2, W3, W4.
  cbn [release existsb]. rewrite !delete_self, Nat.eqb_refl. cbn [orb].
  repeat split.
Qed.

Lemma stop_recording_releases_witness :
  let st1 := run [Scenario.dictated]
               (onopen (handleStartRecording Scenario.env Scenario.dictation_done)) in
  let st' := handleStopRecording st1 in
  isRecording st' = false /\
  released (world st') /\
  mediaStreamRef st' = None /\ scriptProcessorRef st' = None /\
  audioContextRef st' = None /\ sessionPromiseRef st' = None /\
  transcription st' = transcription st1 /\ error st' = None.
Proof.
  apply (stop_recording_releases Scenario.env Scenario.dictation_done [Scenario.dictated]).
  - reflexivity.
  - vm_compute. repeat split.
  - reflexivity.
  - reflexivity.
Defined.

End RecorderMore.

Section LateOpen.



End LateOpen.

(** ** Turns and transcripts *)

Section TranscriptFacts.

Lemma last_default {A} (l : list A) a d d' : last (a :: l) d = last (a :: l) d'.
Proof.
  revert a. induction l as [| b l IH]; intros a; [reflexivity |].
  change (last (b :: l) d = last (b :: l) d'). apply IH.
Qed.

Lemma last_cons {A} (l : list A) a d : last (a :: l) d = last l a.
Proof.
  destruct l as [| b l]; [reflexivity |].
  change (last (b :: l) d = last (b :: l) a). apply last_default.
Qed.

Lemma onmessage_texts t m st :
  Conv.turnComplete m = false ->
  Conv.currentInputTextRef (Conv.onmessage t m st)
  = latest (Conv.inputTranscription m) (Conv.currentInputTextRef st) /\
  Conv.currentOutputTextRef (Conv.onmessage t m st)
  = latest (Conv.outputTranscription m) (Conv.currentOutputTextRef st).
Proof.
  intros H. unfold Conv.onmessage, Conv.onTurnComplete. rewrite H.
  destruct (onInterrupted_texts m (Conv.onAudio t m (Conv.onTranscription m st)))
    as (Hi & Ho & _).
  destruct (onAudio_texts t m (Conv.onTranscription m st)) as (Hi' & Ho' & _).
  destruct (onTranscription_texts m st) as (Hi'' & Ho'' & _).
  split; congruence.
Qed.

Lemma run_texts ms : forall st,
  Forall (fun tm => Conv.turnComplete (snd tm) = false) ms ->
  Conv.currentInputTextRef (Conv.run ms st)
  = last (heardFragments ms) (Conv.currentInputTextRef st) /\
  Conv.currentOutputTextRef (Conv.run ms st)
  = last (saidFragments ms) (Conv.currentOutputTextRef st) /\
  Conv.conversation (Conv.run ms st) = Conv.conversation st.
Proof.
  induction ms as [| [t m] ms IH]; intros st Hms; [repeat split |].
  inversion Hms as [| ? ? Hm Hrest]; subst. cbn [snd] in Hm.
  cbn [Conv.run]. destruct (IH (Conv.onmessage t m st) Hrest) as (Hi & Ho & Hc).
  destruct (onmessage_texts t m st Hm) as [Hi' Ho'].
  rewrite Hi, Ho, Hc, Hi', Ho', onmessage_log, Hm. cbn [andb].
  unfold heardFragments, saidFragments. cbn [flat_map snd].
  repeat split.
  - destruct (Conv.inputTranscription m); cbn [latest app]; [| reflexivity].
    now rewrite last_cons.
  - destruct (Conv.outputTranscription m); cbn [latest app]; [| reflexivity].
    now rewrite last_cons.
Qed.

Lemma run_app ms ms' st : Conv.run (ms ++ ms') st = Conv.run ms' (Conv.run ms st).
Proof.
  revert st. induction ms as [| [t m] ms IH]; intros st; [reflexivity |].
  cbn. apply IH.
Qed.

(** X11.  Fragments overwrite, they are not accumulated: over a whole turn
    (messages that do not complete it, then the one that does) the user text
    and the model text that are committed are the trimmed LAST fragment of
    each side received during the turn (what the buffer held before the
    turn, if the turn brought none), and the pair is appended exactly when
    one of the two has text. *)
Theorem latest_fragment_wins ms t m st :
  Forall (fun tm => Conv.turnComplete (snd tm) = false) ms ->
  Conv.turnComplete m = true ->
  let turn := (ms ++ [(t, m)])%list in
  let userText := trim (last (heardFragments turn) (Conv.currentInputTextRef st)) in
  let modelText := trim (last (saidFragments turn) (Conv.currentOutputTextRef st)) in
  Conv.conversation (Conv.run turn st)
  = if truthy userText || truthy modelText
    then (Conv.conversation st
          ++ [Conv.mkEntry Conv.user userText; Conv.mkEntry Conv.model modelText])%list
    else Conv.conversation st.
Proof.
  intros Hms Hm. cbv zeta. rewrite run_app. cbn [Conv.run].
  destruct (run_texts ms st Hms) as (Hi & Ho & Hc).
  rewrite onmessage_log, Hm, Hi, Ho, Hc. cbn [andb].
  unfold heardFragments, saidFragments. rewrite !flat_map_app. cbn [flat_map snd].
  rewrite !app_nil_r.
  replace (last (_ ++ match Conv.inputTranscription m with
                      | Some t0 => [t0] | None => [] end) (Conv.currentInputTextRef st))
    with (latest (Conv.inputTranscription m)
            (last (heardFragments ms) (Conv.currentInputTextRef st))).
  2: { unfold heardFragments. destruct (Conv.inputTranscription m); cbn [latest].
       - now rewrite last_last.
       - now rewrite app_nil_r. }
  replace (last (_ ++ match Conv.outputTranscription m with
                      | Some t0 => [t0] | None => [] end) (Conv.currentOutputTextRef st))
    with (latest (Conv.outputTranscription m)
            (last (saidFragments ms) (Conv.currentOutputTextRef st))).
  2: { unfold saidFragments. destruct (Conv.outputTranscription m); cbn [latest].
       - now rewrite last_last.
       - now rewrite app_nil_r. }
  reflexivity.
Qed.

Lemma latest_fragment_wins_witness :
  let turn := ([(0%Q, Scenario.heard "he"); (0%Q, Scenario.heard "hello ")]
               ++ [(1%Q, Scenario.turnEnd)])%list in
  let userText :=
    trim (last (heardFragments turn) (Conv.currentInputTextRef Scenario.listening)) in
  let modelText :=
    trim (last (saidFragments turn) (Conv.currentOutputTextRef Scenario.listening)) in
  Conv.conversation (Conv.run turn Scenario.listening)
  = if truthy userText || truthy modelText
    then (Conv.conversation Scenario.listening
          ++ [Conv.mkEntry Conv.user userText; Conv.mkEntry Conv.model modelText])%list
    else Conv.conversation Scenario.listening.
Proof.
  apply (latest_fragment_wins
           [(0%Q, Scenario.heard "he"); (0%Q, Scenario.heard "hello ")]
           1%Q Scenario.turnEnd Scenario.listening).
  - repeat constructor.
  - reflexivity.
Defined.

Example latest_fragment_evaluated :
  Conv.conversation
    (Conv.run [(0%Q, Scenario.heard "he"); (0%Q, Scenario.heard "hello ");
               (1%Q, Scenario.turnEnd)] Scenario.listening)
  = [Conv.mkEntry Conv.user (str "hello"); Conv.mkEntry Conv.model []].
Proof. vm_compute. reflexivity. Qed.

(** The transcript as a join of lines. *)

Lemma joinLines_cons t l : l <> [] -> joinLines (t :: l) = (t ++ [10%N] ++ joinLines l)%list.
Proof. destruct l; [congruence | reflexivity]. Qed.

Lemma joinLines_truthy l : Forall (fun t => truthy t = true) l ->
  truthy (joinLines l) = truthy (match l with [] => [] | _ => [10%N] end).
Proof.
  intros H. destruct l as [| t l]; [reflexivity |].
  inversion H as [| ? ? Ht _]; subst.
  destruct l; cbn; destruct t; cbn in *; congruence.
Qed.

Lemma joinLines_snoc l t :
  Forall (fun t => truthy t = true) l ->
  joinLines (l ++ [t])
  = (joinLines l ++ (if truthy (joinLines l) then [10%N] else []) ++ t)%list.
Proof.
  induction l as [| a l IH]; intros H; [reflexivity |].
  inversion H as [| ? ? Ha Hl]; subst.
  change ((a :: l) ++ [t])%list with (a :: (l ++ [t]))%list.
  rewrite joinLines_cons by (destruct l; discriminate).
  rewrite (joinLines_truthy (a :: l) H). cbn [truthy].
  rewrite (IH Hl), (joinLines_truthy l Hl).
  destruct l as [| b l].
  - reflexivity.
  - rewrite (joinLines_cons a) by discriminate. cbn [truthy].
    rewrite <- !app_assoc. reflexivity.
Qed.

Lemma lines_truthy turns : Forall (fun t => truthy t = true) (lines turns).
Proof. apply Forall_forall. intros x Hx. now apply filter_In in Hx. Qed.

Lemma transcriber_onmessage m st :
  let x := latest (Trans.inputTranscription m) (Trans.currentTurnTextRef st) in
  Trans.currentTurnTextRef (Trans.onmessage m st)
  = (if Trans.turnComplete m then [] else x) /\
  Trans.transcription (Trans.onmessage m st)
  = if Trans.turnComplete m && truthy (trim x)
    then (Trans.transcription st
          ++ (if truthy (Trans.transcription st) then [10%N] else []) ++ trim x)%list
    else Trans.transcription st.
Proof.
  cbv zeta. unfold Trans.onmessage.
  destruct (Trans.inputTranscription m) as [p |], (Trans.turnComplete m);
    cbn -[trim]; split; try reflexivity;
    match goal with |- context [truthy (trim ?s)] => destruct (truthy (trim s)) end;
    reflexivity.
Qed.

Lemma transcript_run ms : forall st committed,
  Forall (fun t => truthy t = true) committed ->
  Trans.transcription st = joinLines committed ->
  Trans.transcription (Trans.run ms st)
  = joinLines (committed ++ lines (turnTexts (Trans.currentTurnTextRef st) ms)).
Proof.
  induction ms as [| m ms IH]; intros st committed Hc Ht.
  - cbn. now rewrite app_nil_r.
  - cbn [Trans.run turnTexts].
    destruct (transcriber_onmessage m st) as [Hcur Htr]. cbv zeta in Hcur, Htr.
    destruct (Trans.turnComplete m) eqn:Htc; cbn [andb] in Htr.
    + unfold lines. cbn [map filter]. fold (lines (turnTexts [] ms)).
      rewrite <- Hcur.
      destruct (truthy (trim _)) eqn:Hx.
      * match goal with |- context [?x :: lines ?l] =>
          change (x :: lines l) with ([x] ++ lines l)%list end.
        rewrite app_assoc. apply IH.
        -- apply Forall_app. split; [assumption | now constructor].
        -- rewrite Htr, joinLines_snoc by assumption. now rewrite Ht.
      * apply IH; [assumption | congruence].
    + rewrite <- Hcur. apply IH; [assumption | congruence].
Qed.

(** [trim] gives a text without white space at either end, and leaves
    such a text as it is. *)
Lemma trimStart_head s :
  match trimStart s with [] => True | c :: _ => isWhiteSpace c = false end.
Proof.
  induction s as [| c r IH]; [exact I |].
  cbn [trimStart]. destruct (isWhiteSpace c) eqn:E; [exact IH | exact E].
Qed.

Lemma trimStart_fixed c r : isWhiteSpace c = false -> trimStart (c :: r) = c :: r.
Proof. intros H. cbn [trimStart]. now rewrite H. Qed.

Lemma trimStart_snoc s c :
  isWhiteSpace c = false -> trimStart (s ++ [c]) = (trimStart s ++ [c])%list.
Proof.
  intros H. induction s as [| a s IH]; cbn [app trimStart].
  - now rewrite H.
  - destruct (isWhiteSpace a); [exact IH | reflexivity].
Qed.

Lemma trimmed_trim s : trimmed (trim s).
Proof.
  unfold trim, trimEnd.
  pose proof (trimStart_head s) as Hs.
  destruct (trimStart s) as [| c r] eqn:E; [exact I |].
  cbn [rev]. rewrite trimStart_snoc by assumption. rewrite rev_app_distr. cbn [rev app].
  unfold trimmed. split; [assumption |].
  pose proof (trimStart_head (rev r)) as Hr.
  destruct (trimStart (rev r)) as [| d q] eqn:Er; [exact Hs |].
  cbn [rev]. rewrite last_cons, last_last. exact Hr.
Qed.

Lemma trim_trimmed s : trimmed s -> trim s = s.
Proof.
  destruct s as [| c r]; [reflexivity |]. intros [Hc Hl].
  unfold trim. rewrite trimStart_fixed by assumption.
  unfold trimEnd.
  rewrite last_cons in Hl.
  destruct (rev r) as [| d q] eqn:Er.
  - apply (f_equal (@rev N)) in Er. rewrite rev_involutive in Er. subst r.
    cbn. now rewrite Hc.
  - assert (Hr : r = (rev q ++ [d])%list).
    { apply (f_equal (@rev N)) in Er. now rewrite rev_involutive in Er. }
    subst r. rewrite last_last in Hl.
    replace (rev (c :: rev q ++ [d])) with (d :: q ++ [c])%list.
    2: { cbn [rev]. rewrite rev_app_distr, rev_involutive. reflexivity. }
    rewrite trimStart_fixed by assumption.
    cbn [rev]. rewrite rev_app_distr. reflexivity.
Qed.

Lemma lines_trimmed turns : Forall trimmed (lines turns).
Proof.
  apply Forall_forall. intros x Hx. apply filter_In in Hx as [Hx _].
  apply in_map_iff in Hx as (y & <- & _). apply trimmed_trim.
Qed.

(** X12.  The transcript of a recording: after [handleStartRecording] and
    any run of messages, the committed transcript is the line-feed join of
    the turns' texts, a turn's text being the trimmed last fragment received
    since the turn before, turns without text left out.  No line is empty
    and none starts or ends with white space. *)
Theorem transcript_joins_turns env st ms :
  Trans.isRecording st = false ->
  let turns := lines (turnTexts [] ms) in
  Trans.transcription (Trans.run ms (Trans.handleStartRecording env st))
  = joinLines turns /\
  Forall (fun line => line <> [] /\ trimmed line) turns.
Proof.
  intros Hidle. cbv zeta. split.
  - set (st0 := Trans.handleStartRecording env st).
    assert (H0 : Trans.transcription st0 = [] /\ Trans.currentTurnTextRef st0 = []).
    { unfold st0, Trans.handleStartRecording, Trans.handleStartRecordingOf. rewrite Hidle.
      destruct (keyMissing env); [split; reflexivity |].
      destruct (getUserMedia env); split; reflexivity. }
    destruct H0 as [Ht Hc].
    rewrite (transcript_run ms st0 [] (Forall_nil _) Ht), Hc. reflexivity.
  - pose proof (lines_truthy (turnTexts [] ms)) as H1.
    pose proof (lines_trimmed (turnTexts [] ms)) as H2.
    rewrite Forall_forall in *. intros x Hx. split; [| now apply H2].
    apply truthy_nonempty. now apply H1.
Qed.

Lemma transcript_joins_turns_witness :
  let turns := lines (turnTexts [] [Scenario.dictated; Scenario.dictated]) in
  Trans.transcription
    (Trans.run [Scenario.dictated; Scenario.dictated]
       (Trans.handleStartRecording Scenario.env Trans.initialState))
  = joinLines turns /\
  Forall (fun line => line <> [] /\ trimmed line) turns.
Proof.
  exact (transcript_joins_turns Scenario.env Trans.initialState
           [Scenario.dictated; Scenario.dictated] eq_refl).
Defined.

Lemma step_trimmed st e :
  Forall (fun entry => trimmed (Conv.text entry)) (Conv.conversation st) ->
  Forall (fun entry => trimmed (Conv.text entry)) (Conv.conversation (Conv.step st e)).
Proof.
  intros Hok. destruct e as [env | | | t m | s |]; cbn [Conv.step].
  - destruct (handleStart_log env st) as [-> | ->]; [assumption | constructor].
  - unfold Conv.handleStop. now destruct (Conv.Status_eqb _ _).
  - unfold Conv.onopen. cbn.
    now destruct (Conv.inputAudioContextRef st), (Conv.mediaStreamRef st).
  - rewrite onmessage_log.
    destruct (Conv.turnComplete m && _); [| assumption].
    apply Forall_app. split; [assumption |].
    repeat constructor; apply trimmed_trim.
  - assumption.
  - assumption.
Qed.

(** X13.  Whatever happens to the conversation from its first render,
    every text in the log is free of leading and trailing white space, and
    trimming it again changes nothing. *)
Theorem persisted_texts_trimmed es :
  Forall (fun entry => trimmed (Conv.text entry) /\ trim (Conv.text entry) = Conv.text entry)
    (Conv.conversation (Conv.runEvents es Conv.initialState)).
Proof.
  assert (H : Forall (fun entry => trimmed (Conv.text entry))
                (Conv.conversation (Conv.runEvents es Conv.initialState))).
  { unfold Conv.runEvents.
    assert (H0 : Forall (fun entry => trimmed (Conv.text entry))
                   (Conv.conversation Conv.initialState)) by constructor.
    revert H0. generalize Conv.initialState.
    induction es as [| e es IH]; intros st Hst; [exact Hst |].
    cbn [fold_left]. apply IH. now apply step_trimmed. }
  rewrite Forall_forall in *. intros x Hx. split; [now apply H |].
  apply trim_trimmed. now apply H.
Qed.

End TranscriptFacts.

(** ** The one-shot calls and the pages, request by request *)

Section ServiceFacts.
Import GeminiService ServiceTerms.
Local Open Scope string_scope.

Lemma split_plain s : noComma s = true -> split ","%char s = [s].
Proof.
  induction s as [| c r IH]; [reflexivity |].
  cbn [noComma split]. intros H. apply andb_true_iff in H as [Hc Hr].
  apply negb_true_iff in Hc. rewrite Hc, (IH Hr). reflexivity.
Qed.

Lemma split_at a b :
  noComma a = true -> split ","%char (a ++ String ","%char b) = a :: split ","%char b.
Proof.
  induction a as [| c r IH]; intros H.
  - reflexivity.
  - cbn [noComma] in H. apply andb_true_iff in H as [Hc Hr].
    apply negb_true_iff in Hc. cbn [append split]. rewrite Hc, (IH Hr). reflexivity.
Qed.

Lemma noComma_app a b : noComma (a ++ b) = noComma a && noComma b.
Proof.
  induction a as [| c r IH]; [reflexivity |].
  cbn [append noComma]. now rewrite IH, andb_assoc.
Qed.

Lemma append_assoc (a b c : string) : (a ++ b) ++ c = a ++ b ++ c.
Proof. induction a as [| x a IH]; [reflexivity |]. cbn. now rewrite IH. Qed.

Lemma split_dataUrl mime data :
  noComma mime = true -> noComma data = true ->
  split ","%char (dataUrl mime data) = ["data:" ++ mime ++ ";base64"; data].
Proof.
  intros Hm Hd. unfold dataUrl.
  replace ("data:" ++ mime ++ ";base64," ++ data)
    with (("data:" ++ mime ++ ";base64") ++ String ","%char data).
  2: { rewrite !append_assoc. reflexivity. }
  rewrite split_at, (split_plain data Hd); [reflexivity |].
  rewrite !noComma_app, Hm. reflexivity.
Qed.

(** X19.  Data URLs round-trip through the service calls: of a picture
    whose [base64] field is the data URL of a MIME type and a payload
    (neither holds a comma), the inline data sent is exactly the payload,
    with the picture's own [mimeType]; and a response whose first part with
    inline data carries that MIME type and payload is returned as that very
    data URL. *)
Theorem inline_payload_of_data_url image mime data :
  base64 image = dataUrl mime data ->
  noComma mime = true -> noComma data = true ->
  inlineOf image = inlineData (Some data) (mimeType image) /\
  (forall failure response,
     find (fun p => match p with Some _ => true | None => false end)
       (candidateParts response) = Some (Some (mime, data)) ->
     imageResult failure response = inr (base64 image)).
Proof.
  intros Hb Hm Hd. split.
  - unfold inlineOf. rewrite Hb, (split_dataUrl mime data Hm Hd). reflexivity.
  - intros failure response Hfind. unfold imageResult. rewrite Hfind, Hb. reflexivity.
Qed.

Lemma inline_payload_of_data_url_witness :
  inlineOf Scenario.picture = inlineData (Some "AAAA") (mimeType Scenario.picture) /\
  (forall failure response,
     find (fun p => match p with Some _ => true | None => false end)
       (candidateParts response) = Some (Some ("image/jpeg", "AAAA")) ->
     imageResult failure response = inr (base64 Scenario.picture)).
Proof.
  exact (inline_payload_of_data_url Scenario.picture "image/jpeg" "AAAA"
           eq_refl eq_refl eq_refl).
Defined.

Lemma generateContent_singleShot remote request k :
  singleShot remote (generateContent remote request k).
Proof.
  exists request. split; [reflexivity |]. intros e He. cbn. now rewrite He.
Qed.

Lemma generateContent_atMostOnce remote request k :
  atMostOnce (generateContent remote request k).
Proof. split; [cbn; lia | discriminate]. Qed.

Lemma threw_atMostOnce message : atMostOnce (threw message).
Proof. split; [cbn; lia | intros _; now exists message]. Qed.

(** X20.  With the credential set, every one-shot call sends exactly one
    request, whatever the service answers, and when the service rejects the
    request the call throws the service's own error: no retry, no
    fallback. *)
Theorem calls_send_one_request env remote :
  keyMissing env = false ->
  (forall image, singleShot remote (extractPromptFromImage env remote image)) /\
  (forall image w h, singleShot remote (generativeResize env remote image w h)) /\
  (forall image prompt, singleShot remote (editImage env remote image prompt)) /\
  (forall face target, singleShot remote (faceSwap env remote face target)) /\
  (forall prompt ratio, singleShot remote (generateImageFromText env remote prompt ratio)) /\
  (forall content voice language,
     singleShot remote (generateSpeech env remote content voice language)) /\
  (forall image, singleShot remote (upscaleImage env remote image)) /\
  (forall subject scene style prompt,
     singleShot remote (generateImageFromElements env remote subject scene style prompt)) /\
  (forall original style prompt,
     singleShot remote (restyleImage env remote original style prompt)) /\
  (forall person garment, singleShot remote (virtualTryOn env remote person garment)) /\
  (forall person garments,
     singleShot remote (virtualTryOnMultiple env remote person garments)).
Proof.
  intros Hkey.
  unfold extractPromptFromImage, generativeResize, editImage, faceSwap,
    generateImageFromText, generateSpeech, upscaleImage, generateImageFromElements,
    restyleImage, virtualTryOn, virtualTryOnMultiple.
  rewrite Hkey.
  repeat match goal with |- _ /\ _ => split end; intros;
    apply generateContent_singleShot.
Qed.

Lemma calls_send_one_request_witness :
  singleShot Scenario.offline (upscaleImage Scenario.env Scenario.offline Scenario.picture).
Proof.
  destruct (calls_send_one_request Scenario.env Scenario.offline eq_refl)
    as (_ & _ & _ & _ & _ & _ & Hup & _).
  exact (Hup Scenario.picture).
Defined.

Lemma calls_atMostOnce env remote :
  (forall image, atMostOnce (extractPromptFromImage env remote image)) /\
  (forall image w h, atMostOnce (generativeResize env remote image w h)) /\
  (forall image prompt, atMostOnce (editImage env remote image prompt)) /\
  (forall prompt ratio, atMostOnce (generateImageFromText env remote prompt ratio)) /\
  (forall content voice language,
     atMostOnce (generateSpeech env remote content voice language)) /\
  (forall image, atMostOnce (upscaleImage env remote image)) /\
  (forall subject scene style prompt,
     atMostOnce (generateImageFromElements env remote subject scene style prompt)) /\
  (forall original style prompt,
     atMostOnce (restyleImage env remote original style prompt)) /\
  (forall person garment, atMostOnce (virtualTryOn env remote person garment)) /\
  (forall person garments,
     atMostOnce (virtualTryOnMultiple env remote person garments)).
Proof.
  unfold extractPromptFromImage, generativeResize, editImage,
    generateImageFromText, generateSpeech, upscaleImage, generateImageFromElements,
    restyleImage, virtualTryOn, virtualTryOnMultiple.
  destruct (keyMissing env);
    repeat match goal with |- _ /\ _ => split end; intros;
    first [apply generateContent_atMostOnce | apply threw_atMostOnce].
Qed.

Lemma refuse_settled message p : settled p (Pages.refuse message p).
Proof.
  right. split; [exists message; reflexivity |]. split.
  - exists []. split; [cbn; now rewrite app_nil_r | cbn; lia].
  - right. split; reflexivity.
Qed.

Lemma attempt_settled prefix logged call p :
  atMostOnce call -> settled p (Pages.attempt prefix logged call p).
Proof.
  intros [Hlen Hnone]. unfold Pages.attempt.
  destruct (result call) as [message | value] eqn:Hr.
  - right. split; [eexists; reflexivity |]. split; [| now left].
    exists (requests call). split; [reflexivity | assumption].
  - left. split; [reflexivity |]. split; [eexists; reflexivity |].
    destruct (requests call) as [| r [| r' rs]] eqn:Hq.
    + destruct (Hnone eq_refl) as [e He]. congruence.
    + now exists r.
    + cbn in Hlen. lia.
Qed.

Lemma settled_from p0 p p' :
  Pages.sent p = Pages.sent p0 -> Pages.output p = None ->
  settled p p' -> settled p0 p'.
Proof.
  intros Hs Ho [(He & Hv & r & Hr) | (He & (rs & Hrs & Hlen) & Hout)].
  - left. split; [assumption |]. split; [assumption |]. exists r. congruence.
  - right. split; [assumption |]. split.
    + exists rs. split; [congruence | assumption].
    + left. destruct Hout as [H | [H _]]; congruence.
Qed.

(** X21.  How a click ends on the pages of [ImageEditor.tsx], for every
    input, credential and service: either a result is shown, with no error,
    after exactly one request; or an error is shown, after at most one
    request, the result being cleared or, when the click was refused before
    anything was sent, left as it was. *)
Theorem editor_clicks_settle env remote p :
  (forall originalImage prompt,
     settled p (Pages.ImageEditor.handleGenerateClick env remote originalImage prompt p)) /\
  (forall originalImage selectedEffect,
     settled p (Pages.ImageEffects.handleGenerateClick env remote originalImage
                  selectedEffect p)) /\
  (forall subject scene style prompt ratio,
     settled p (Pages.ImageReferenceGenerator.handleGenerate env remote subject scene
                  style prompt ratio p)) /\
  (forall original style prompt ratio,
     settled p (Pages.ImageReferenceGenerator.handleRestyleGenerate env remote original
                  style prompt ratio p)) /\
  (forall prompt ratio,
     settled p (Pages.ImageReferenceGenerator.handleTextToImageGenerate env remote
                  prompt ratio p)).
Proof.
  destruct (calls_atMostOnce env remote)
    as (_ & _ & Hedit & Htext & _ & _ & Helem & Hrestyle & _ & _).
  split.
  { intros [image |] prompt; cbn; [| apply refuse_settled].
    destruct (Pages.empty prompt); [apply refuse_settled | now apply attempt_settled]. }
  split.
  { intros [image |] [effect |]; cbn;
      first [apply refuse_settled | now apply attempt_settled]. }
  split.
  { intros subject scene style prompt ratio.
    unfold Pages.ImageReferenceGenerator.handleGenerate.
    destruct subject, scene, style;
      first [apply refuse_settled | now apply attempt_settled]. }
  split.
  { intros [| o os] [| s ss] prompt ratio; cbn;
      first [apply refuse_settled | now apply attempt_settled]. }
  intros prompt ratio. unfold Pages.ImageReferenceGenerator.handleTextToImageGenerate.
  destruct (Pages.empty prompt); [apply refuse_settled | now apply attempt_settled].
Qed.

(** X22.  The same for the upscaler, the sizer (in its ['ai'] mode) and
    the prompt extractor: a result with no error after exactly one request,
    or an error after at most one request. *)
Theorem tool_clicks_settle env remote p :
  (forall originalImage,
     settled p (Pages.ImageUpscaler.handleUpscaleClick env remote originalImage p)) /\
  (forall errorUpload errorDimensions originalImage targetWidth targetHeight,
     settled p (Pages.ImageSizer.handleResize env remote errorUpload errorDimensions
                  originalImage targetWidth targetHeight p)) /\
  (forall errorUpload media,
     settled p (Pages.PromptExtractor.handleExtract env remote errorUpload media p)).
Proof.
  destruct (calls_atMostOnce env remote)
    as (Hextract & Hresize & _ & _ & _ & Hup & _).
  split.
  { intros [image |]; cbn; [now apply attempt_settled | apply refuse_settled]. }
  split.
  { intros errorUpload errorDimensions [image |] [w |] [h |]; cbn;
      try apply refuse_settled.
    destruct ((w <=? 0) || (h <=? 0))%Z;
      [apply refuse_settled | now apply attempt_settled]. }
  intros errorUpload [[image |] |]; cbn;
    first [apply refuse_settled | now apply attempt_settled].
Qed.

Lemma thenWav_atMostOnce atob call :
  atMostOnce call -> atMostOnce (Pages.thenWav atob call).
Proof.
  intros [Hlen Hnone]. split; [exact Hlen |].
  intros Hq. destruct (Hnone Hq) as [e He]. exists e.
  unfold Pages.thenWav. cbn [result]. now rewrite He.
Qed.

(** X23.  The same for the speech page and the try-on page: a result with
    no error after exactly one request, or an error after at most one
    request; an answer that [atob] refuses and a model picture that cannot
    be fetched end with the error shown and no result.  The voice preview
    never touches the error line or the result, sends at most one request,
    and does nothing while a preview is under way. *)
Theorem speech_clicks_settle env remote p :
  (forall atob content voice language,
     let p' := Pages.TTS.handleGenerateSpeech env remote atob content voice language p in
     settled p p' /\
     (forall base64Audio message,
        content <> "" ->
        result (generateSpeech env remote content voice (Some language))
        = inr base64Audio ->
        atob base64Audio = inl message ->
        Pages.error p' = Some ("Speech generation failed: " ++ message) /\
        Pages.output p' = None)) /\
  (forall modelChoice garments,
     settled p (Pages.VirtualTryOn.handleGenerateClick env remote modelChoice garments p)) /\
  (forall atob play isPreviewing voice,
     let p' := Pages.TTS.handlePreview env remote atob play isPreviewing voice p in
     Pages.error p' = Pages.error p /\ Pages.output p' = Pages.output p /\
     (exists rs, Pages.sent p' = (Pages.sent p ++ rs)%list /\ (List.length rs <= 1)%nat) /\
     (isPreviewing = true -> p' = p)).
Proof.
  destruct (calls_atMostOnce env remote)
    as (_ & _ & _ & _ & Hspeech & _ & _ & _ & Htry & Hmulti).
  split.
  { intros atob content voice language. cbv zeta.
    unfold Pages.TTS.handleGenerateSpeech. split.
    - destruct (Pages.empty content); [apply refuse_settled |].
      apply attempt_settled, thenWav_atMostOnce, Hspeech.
    - intros base64Audio message Hc Hr Ha.
      destruct content; [congruence |]. cbn [Pages.empty].
      unfold Pages.attempt, Pages.thenWav, Pages.wavOf. cbn [result].
      rewrite Hr, Ha. split; reflexivity. }
  split.
  2: { intros atob play [|] voice; cbv zeta; unfold Pages.TTS.handlePreview.
       - split; [reflexivity |]. split; [reflexivity |]. split; [| reflexivity].
         exists []. split; [now rewrite app_nil_r | cbn; lia].
       - split; [reflexivity |]. split; [reflexivity |]. split; [| discriminate].
         eexists. split; [reflexivity |]. apply Hspeech. }
  intros modelChoice garments. unfold Pages.VirtualTryOn.handleGenerateClick.
  destruct modelChoice as [[person |] | url [message | person]];
    try (destruct garments as [[garment |] | [| g gs]]);
    cbv beta iota zeta;
    first
      [ refine (settled_from _ _ _ eq_refl eq_refl (refuse_settled _ _))
      | eapply settled_from;
        [ | | apply attempt_settled; first [apply Htry | apply Hmulti]];
        reflexivity
      | (* the picture could not be fetched *)
        right; split; [eexists; reflexivity |]; split; [| now left];
        exists []; split; [cbn; now rewrite app_nil_r | cbn; lia] ].
Qed.

(** The doubles of the literals of [generativeResize], and a quotient that
    differs from its double: 4800000000000005 / 4000000000000004 is above
    6/5, its double is the double of 1.2, and the picture is asked for at
    1:1. *)
Example ratio_rounding_evaluated :
  (JS.toDouble (6 # 5) == 5404319552844595 # 4503599627370496)%Q /\
  (JS.toDouble (3 # 5) == 5404319552844595 # 9007199254740992)%Q /\
  (JS.toDouble (4 # 5) == 3602879701896397 # 4503599627370496)%Q /\
  (6 # 5 < inject_Z 4800000000000005 / inject_Z 4000000000000004)%Q /\
  map config
    (requests (generativeResize Scenario.env Scenario.offline Scenario.picture
                 4800000000000005 4000000000000004))
  = [imageConfig (Some "1:1")] /\
  map config
    (requests (generativeResize Scenario.env Scenario.offline Scenario.picture 1920 1080))
  = [imageConfig (Some "16:9")].
Proof. vm_compute. repeat split; reflexivity. Qed.

End ServiceFacts.
